(** * Word-to-UDF converter: the target serializer and the parser's error path

    A shallow embedding of [UdfGenerator] (the footnote-aware generator and
    the older one in [js/udf-generator.js]) and of the error handling of
    [DocxParser.parse], with the properties of the specification stated and
    proved over it. *)

From Stdlib Require Import Ascii String.
From Stdlib Require Decimal.
From Stdlib Require Strings.Byte.
From Stdlib Require Import List ZArith NArith Arith Lia Bool.
Import ListNotations.

Set Implicit Arguments.

(** ** JavaScript strings

    A JavaScript string is a sequence of UTF-16 code units and [s.length]
    counts code units, so a string is a list of code units and its length
    is the length of the list. *)

Definition jsstring := list N.

(** An ASCII literal of the source, as code units. *)
Fixpoint lit (s : string) : jsstring :=
  match s with
  | EmptyString => []
  | String c rest => N_of_ascii c :: lit rest
  end.

(** The double quote, which the literals of this file never contain. *)
Definition dquote : jsstring := [34%N].

(** [name="value"], the shape of every attribute the generator writes. *)
Definition attr (name : string) (value : jsstring) : jsstring :=
  lit name ++ lit "=" ++ dquote ++ value ++ dquote.

(** [Array.prototype.join]. *)
Fixpoint join (sep : jsstring) (parts : list jsstring) : jsstring :=
  match parts with
  | [] => []
  | [p] => p
  | p :: rest => p ++ sep ++ join sep rest
  end.

(** A string is truthy when it is neither [null]/[undefined] nor empty. *)
Definition truthy (s : option jsstring) : bool :=
  match s with
  | Some (_ :: _) => true
  | _ => false
  end.

(** Decimal rendering of the natural numbers and 32-bit integers that the
    generator interpolates into its templates. *)
Fixpoint uintToString (d : Decimal.uint) : jsstring :=
  match d with
  | Decimal.Nil => []
  | Decimal.D0 r => 48%N :: uintToString r
  | Decimal.D1 r => 49%N :: uintToString r
  | Decimal.D2 r => 50%N :: uintToString r
  | Decimal.D3 r => 51%N :: uintToString r
  | Decimal.D4 r => 52%N :: uintToString r
  | Decimal.D5 r => 53%N :: uintToString r
  | Decimal.D6 r => 54%N :: uintToString r
  | Decimal.D7 r => 55%N :: uintToString r
  | Decimal.D8 r => 56%N :: uintToString r
  | Decimal.D9 r => 57%N :: uintToString r
  end.

Definition natToString (n : nat) : jsstring := uintToString (Nat.to_uint n).

Definition intToString (z : Z) : jsstring :=
  match Z.to_int z with
  | Decimal.Pos d => uintToString d
  | Decimal.Neg d => 45%N :: uintToString d
  end.

(** ** [parseInt(s, 16)] and the int32 operators

    [hexToRgbInt] applies [parseInt(_, 16)] to substrings of at most two
    code units, so the parsed value is exact. [None] stands for [NaN]. *)

Definition isStrWhiteSpace (c : N) : bool :=
  existsb (N.eqb c)
    [9; 10; 11; 12; 13; 32; 160; 5760; 8232; 8233; 8239; 8287; 12288; 65279]%N
  || (N.leb 8192 c && N.leb c 8202)%N.

Fixpoint trimStart (s : jsstring) : jsstring :=
  match s with
  | c :: rest => if isStrWhiteSpace c then trimStart rest else s
  | [] => []
  end.

Definition hexDigit (c : N) : option Z :=
  if (N.leb 48 c && N.leb c 57)%N then Some (Z.of_N c - 48)%Z
  else if (N.leb 97 c && N.leb c 102)%N then Some (Z.of_N c - 87)%Z
  else if (N.leb 65 c && N.leb c 70)%N then Some (Z.of_N c - 55)%Z
  else None.

(** The longest prefix of hexadecimal digits, read left to right;
    [seen] records whether a digit has been read. *)
Fixpoint hexDigits (s : jsstring) (acc : Z) (seen : bool) : option Z :=
  match s with
  | c :: rest =>
      match hexDigit c with
      | Some d => hexDigits rest (16 * acc + d)%Z true
      | None => if seen then Some acc else None
      end
  | [] => if seen then Some acc else None
  end.

Definition stripHexPrefix (s : jsstring) : jsstring :=
  match s with
  | 48%N :: x :: rest => if (N.eqb x 120 || N.eqb x 88)%N then rest else s
  | _ => s
  end.

Definition parseInt16 (s : jsstring) : option Z :=
  let s := trimStart s in
  let '(sign, s) :=
    match s with
    | 45%N :: rest => ((-1)%Z, rest)
    | 43%N :: rest => (1%Z, rest)
    | _ => (1%Z, s)
    end in
  match hexDigits (stripHexPrefix s) 0%Z false with
  | Some v => Some (sign * v)%Z
  | None => None
  end.

(** [ToInt32]: wrap to the signed 32-bit range; [NaN] becomes 0. *)
Definition wrap32 (z : Z) : Z := ((z + 2 ^ 31) mod 2 ^ 32 - 2 ^ 31)%Z.

Definition toInt32 (v : option Z) : Z :=
  match v with
  | Some z => wrap32 z
  | None => 0%Z
  end.

(** [a << k] and [a | b] on operands already converted with [ToInt32]. *)
Definition shl32 (a : Z) (k : Z) : Z := wrap32 (Z.shiftl a (k mod 32)%Z).
Definition or32 (a b : Z) : Z := wrap32 (Z.lor a b).

(** [String.prototype.replace] with a one-character pattern and an empty
    replacement: the first occurrence is removed. *)
Fixpoint removeFirst (c : N) (s : jsstring) : jsstring :=
  match s with
  | [] => []
  | x :: rest => if N.eqb x c then rest else x :: removeFirst c rest
  end.

(** [s.substring(i, j)] for [i <= j]. *)
Definition substring (i j : nat) (s : jsstring) : jsstring :=
  firstn (j - i) (skipn i s).

Definition unwrap (s : option jsstring) : jsstring :=
  match s with
  | Some x => x
  | None => []
  end.

(** [hexToRgbInt], the same text in both generators. *)
Definition hexToRgbInt (hex : option jsstring) : Z :=
  if negb (truthy hex) then (-16777216)%Z
  else
    let hex := removeFirst 35%N (unwrap hex) in
    let r := parseInt16 (substring 0 2 hex) in
    let g := parseInt16 (substring 2 4 hex) in
    let b := parseInt16 (substring 4 6 hex) in
    let rgb :=
      or32 (or32 (or32 (shl32 255 24) (shl32 (toInt32 r) 16))
                 (shl32 (toInt32 g) 8))
           (toInt32 b) in
    or32 rgb 0%Z.

(** [escapeXml] of [js/utils.js]. The five replacements run one after the
    other with [&] first, and no replacement text contains a character that
    a later pattern matches, so the chain acts on each code unit alone. *)
Definition escapeChar (c : N) : jsstring :=
  if N.eqb c 38 then lit "&amp;"
  else if N.eqb c 60 then lit "&lt;"
  else if N.eqb c 62 then lit "&gt;"
  else if N.eqb c 34 then lit "&quot;"
  else if N.eqb c 39 then lit "&apos;"
  else [c].

Definition escapeXml (text : jsstring) : jsstring := flat_map escapeChar text.

(** ** Numbers that come from the document

    Font sizes, indents, extents, column widths and list levels are
    JavaScript doubles ([parseInt(v) / 2], [Math.round(..)], possibly [NaN]).
    The generator never computes an offset from them: it prints them into
    attribute values, tests them for truthiness and derives the column
    spans. These operations on doubles are taken as an interface, so that
    every result below holds whatever the double arithmetic yields. *)
Class JsNumber : Type := {
  number : Type;
  (** [`${n}`] *)
  numToString : number -> jsstring;
  (** [ToBoolean(n)]: false for 0 and [NaN] *)
  numTruthy : number -> bool;
  (** [n > 1] *)
  numGt1 : number -> bool;
  (** [0] and [a + b], for [columnWidths.reduce((a, b) => a + b, 0)] *)
  numZero : number;
  numAdd : number -> number -> number;
  (** [Math.round((w / total) * 300)] *)
  roundShare : number -> number -> number;
  (** [Math.round(300 / columnCount)] *)
  roundEqual : nat -> number;
  (** [parseInt(numId) % 2 === 0] *)
  parseIntIsEven : option jsstring -> bool
}.

(** An instance over the integers, to run the generator on documents whose
    numbers are integers below 2^53 and whose column widths have a sum
    other than zero. [parseInt] without a radix reads a sign, then
    hexadecimal digits after [0x] and decimal digits otherwise. *)
Definition roundDiv (a b : Z) : Z := ((2 * a + b) / (2 * b))%Z.

Fixpoint decDigits (s : jsstring) (acc : Z) (seen : bool) : option Z :=
  match s with
  | c :: rest =>
      if (N.leb 48 c && N.leb c 57)%N
      then decDigits rest (10 * acc + (Z.of_N c - 48))%Z true
      else if seen then Some acc else None
  | [] => if seen then Some acc else None
  end.

Definition parseInt (s : jsstring) : option Z :=
  let s := trimStart s in
  let '(sign, s) :=
    match s with
    | 45%N :: rest => ((-1)%Z, rest)
    | 43%N :: rest => (1%Z, rest)
    | _ => (1%Z, s)
    end in
  let digits :=
    match s with
    | 48%N :: x :: rest =>
        if (N.eqb x 120 || N.eqb x 88)%N then hexDigits rest 0%Z false
        else decDigits s 0%Z false
    | _ => decDigits s 0%Z false
    end in
  match digits with
  | Some v => Some (sign * v)%Z
  | None => None
  end.

Definition intNumber : JsNumber := {|
  number := Z;
  numToString := intToString;
  numTruthy := fun z => negb (Z.eqb z 0);
  numGt1 := fun z => Z.ltb 1 z;
  numZero := 0%Z;
  numAdd := Z.add;
  roundShare := fun w total => roundDiv (300 * w) total;
  roundEqual := fun n => roundDiv 300 (Z.of_nat n);
  parseIntIsEven := fun s =>
    match parseInt (match s with Some d => d | None => lit "null" end) with
    | Some z => Z.even z
    | None => false
    end
|}.

(** ** The emitted elements

    The source pushes template strings; an element here is the template
    with its interpolated values, and [render*] fills the template in. The
    [(startOffset, length)] of an element stays readable this way. *)
Inductive Leaf : Type :=
| Content (startOffset length : nat) (attrs : jsstring)
| Tab (startOffset : nat)
| Image (startOffset : nat) (imageData width height : jsstring).

Record ParagraphEl : Type := {
  pAttrs : jsstring;
  pChildren : list Leaf
}.

Record CellEl : Type := {
  cellAttrs : jsstring;
  cellContent : list ParagraphEl
}.

Record RowEl : Type := {
  rowNumber : nat;
  rowCells : list CellEl
}.

Inductive Element : Type :=
| EParagraph (p : ParagraphEl)
| EPageBreak
| ETable (columnCount : nat) (columnSpans border : jsstring)
         (rowElements : list RowEl).

Definition leafStart (l : Leaf) : nat :=
  match l with
  | Content o _ _ => o
  | Tab o => o
  | Image o _ _ _ => o
  end.

Definition leafLength (l : Leaf) : nat :=
  match l with
  | Content _ n _ => n
  | Tab _ => 1
  | Image _ _ _ _ => 1
  end.

Definition renderLeaf (l : Leaf) : jsstring :=
  match l with
  | Content o n attrs =>
      lit "<content " ++ attr "startOffset" (natToString o) ++ lit " "
      ++ attr "length" (natToString n) ++ lit " " ++ attrs ++ lit " />"
  | Tab o =>
      lit "<tab " ++ attr "startOffset" (natToString o) ++ lit " "
      ++ attr "length" (lit "1") ++ lit " />"
  | Image o data w h =>
      lit "<image " ++ attr "startOffset" (natToString o) ++ lit " "
      ++ attr "length" (lit "1") ++ lit " " ++ attr "imageData" data
      ++ lit " " ++ attr "width" w ++ lit " " ++ attr "height" h
      ++ lit " />"
  end.

Definition renderParagraph (p : ParagraphEl) : jsstring :=
  lit "<paragraph " ++ pAttrs p ++ lit ">"
  ++ join [] (map renderLeaf (pChildren p)) ++ lit "</paragraph>".

Definition renderCell (c : CellEl) : jsstring :=
  lit "<cell" ++ cellAttrs c ++ lit ">"
  ++ join [] (map renderParagraph (cellContent c)) ++ lit "</cell>".

Definition renderRow (r : RowEl) : jsstring :=
  lit "<row " ++ attr "rowName" (lit "row" ++ natToString (rowNumber r))
  ++ lit " " ++ attr "rowType" (lit "dataRow") ++ lit ">"
  ++ join [] (map renderCell (rowCells r)) ++ lit "</row>".

Definition renderElement (e : Element) : jsstring :=
  match e with
  | EParagraph p => renderParagraph p
  | EPageBreak => lit "<page-break />"
  | ETable count spans border rows =>
      lit "<table " ++ attr "tableName" (lit "Table") ++ lit " "
      ++ attr "columnCount" (natToString count) ++ lit " "
      ++ attr "columnSpans" spans ++ lit " " ++ attr "border" border
      ++ lit ">" ++ join [] (map renderRow rows) ++ lit "</table>"
  end.

(** The content, tab and image elements of an element, in emission order. *)
Definition paragraphLeaves (ps : list ParagraphEl) : list Leaf :=
  flat_map pChildren ps.

Definition cellLeaves (cs : list CellEl) : list Leaf :=
  flat_map (fun c => paragraphLeaves (cellContent c)) cs.

Definition rowLeaves (rs : list RowEl) : list Leaf :=
  flat_map (fun r => cellLeaves (rowCells r)) rs.

Definition elementLeaves (e : Element) : list Leaf :=
  match e with
  | EParagraph p => pChildren p
  | EPageBreak => []
  | ETable _ _ _ rows => rowLeaves rows
  end.

Definition leaves (es : list Element) : list Leaf := flat_map elementLeaves es.

Definition sumLengths (ls : list Leaf) : nat :=
  fold_right (fun l n => leafLength l + n) 0 ls.

(** The fixed attribute strings of the templates. *)
Definition defaultParagraphAttrs : jsstring :=
  attr "Alignment" (lit "0") ++ lit " " ++ attr "LeftIndent" (lit "0.0")
  ++ lit " " ++ attr "RightIndent" (lit "0.0").

Definition defaultContentAttrs : jsstring :=
  attr "family" (lit "Times New Roman") ++ lit " " ++ attr "size" (lit "12").

Definition footnoteTextAttrs : jsstring :=
  attr "family" (lit "Times New Roman") ++ lit " " ++ attr "size" (lit "10").

Definition superscriptAttrs : jsstring :=
  footnoteTextAttrs ++ lit " " ++ attr "superscript" (lit "true").

Definition defaultParagraph (children : list Leaf) : ParagraphEl :=
  {| pAttrs := defaultParagraphAttrs; pChildren := children |}.

(** The characters the generator writes by itself. *)
Definition zeroWidthSpace : N := 8203%N.
Definition objectReplacement : N := 65532%N.
Definition newline : N := 10%N.
Definition tabChar : N := 9%N.
Definition space : N := 32%N.
Definition separator : jsstring := repeat 9472%N 20.

(** ** The document model (the parser's output) *)

Inductive Alignment : Type := AlignLeft | AlignCenter | AlignRight | AlignJustify.

Inductive Border : Type := BorderCell | BorderNone.

(** A collected footnote, [{number, text}]. *)
Record Footnote : Type := {
  fnNumber : jsstring;
  fnText : jsstring
}.

Section DocumentModel.
Context {Num : JsNumber}.

Record TextProps : Type := {
  text : jsstring;
  bold : bool;
  italic : bool;
  underline : bool;
  strike : bool;
  fontFamily : jsstring;
  fontSize : number;
  color : option jsstring
}.

(** [run.type] is one of six tags. *)
Inductive Run : Type :=
| TextRun (t : TextProps)
| TabRun
| ImageRun (data : option jsstring) (width height : number)
| BreakRun
| PageBreakRun
| FootnoteRefRun (id content : jsstring).

Record Numbering : Type := {
  level : number;
  numId : option jsstring
}.

Record Paragraph : Type := {
  alignment : Alignment;
  leftIndent : option number;
  rightIndent : option number;
  firstLineIndent : option number;
  numbering : option Numbering;
  runs : list Run
}.

Record Cell : Type := {
  paragraphs : list Paragraph;
  colspan : number;
  vAlign : option jsstring;
  bgColor : option jsstring;
  vMergeContinue : bool;
  vMergeStart : bool
}.

Record Row : Type := { cells : list Cell }.

Record Table : Type := {
  rows : list Row;
  columnWidths : list number;
  border : Border
}.

Inductive Block : Type :=
| BParagraph (paragraph : Paragraph)
| BTable (table : Table).

(** [document.elements]; the generator does not read [document.images]. *)
Record Document : Type := { docElements : list Block }.

(** *** Functions shared by the two generators (the same text in both) *)

Definition optTruthy (n : option number) : bool :=
  match n with
  | Some x => numTruthy x
  | None => false
  end.

Definition optToString (n : option number) : jsstring :=
  match n with
  | Some x => numToString x
  | None => lit "undefined"
  end.

Definition buildContentAttrs (run : TextProps) : jsstring :=
  join (lit " ")
    ([attr "family"
        (escapeXml (if truthy (Some (fontFamily run)) then fontFamily run
                    else lit "Times New Roman"));
      attr "size"
        (if numTruthy (fontSize run) then numToString (fontSize run)
         else lit "12")]
     ++ (if bold run then [attr "bold" (lit "true")] else [])
     ++ (if italic run then [attr "italic" (lit "true")] else [])
     ++ (if underline run then [attr "underline" (lit "true")] else [])
     ++ (if strike run then [attr "strikethrough" (lit "true")] else [])
     ++ (if truthy (color run)
         then [attr "foreground" (intToString (hexToRgbInt (color run)))]
         else [])).

Definition alignmentCode (a : Alignment) : jsstring :=
  match a with
  | AlignLeft => lit "0"
  | AlignCenter => lit "1"
  | AlignRight => lit "2"
  | AlignJustify => lit "3"
  end.

Definition indentAttr (name : string) (v : option number) : jsstring :=
  lit " " ++ attr name (if optTruthy v then optToString v ++ lit ".0"
                        else lit "0.0").

Definition numberingAttrs (n : Numbering) : jsstring :=
  let isBulleted := parseIntIsEven (numId n) in
  let list :=
    lit " " ++ attr "ListLevel" (numToString (level n)) ++ lit " "
    ++ attr "ListId" (match numId n with
                      | Some s => s
                      | None => lit "null"
                      end) in
  if isBulleted
  then lit " " ++ attr "Bulleted" (lit "true") ++ lit " "
       ++ attr "BulletType" (lit "BULLET_TYPE_ELLIPSE") ++ list
  else lit " " ++ attr "Numbered" (lit "true") ++ lit " "
       ++ attr "NumberType" (lit "NUMBER_TYPE_NUMBER_TRE") ++ list.

Definition buildParagraphElement (paragraph : Paragraph)
           (childElements : list Leaf) : ParagraphEl :=
  let attrs := attr "Alignment" (alignmentCode (alignment paragraph)) in
  let attrs := attrs ++ indentAttr "LeftIndent" (leftIndent paragraph) in
  let attrs := attrs ++ indentAttr "RightIndent" (rightIndent paragraph) in
  let attrs :=
    if optTruthy (firstLineIndent paragraph)
    then attrs ++ indentAttr "FirstLineIndent" (firstLineIndent paragraph)
    else attrs in
  let attrs :=
    match numbering paragraph with
    | Some n => attrs ++ numberingAttrs n
    | None => attrs
    end in
  {| pAttrs := attrs; pChildren := childElements |}.

(** The attributes of a [<cell>]. *)
Definition buildCellAttrs (cell : Cell) : jsstring :=
  (if numGt1 (colspan cell)
   then lit " " ++ attr "colspan" (numToString (colspan cell)) else [])
  ++ (if truthy (bgColor cell)
      then lit " " ++ attr "bgColor" (intToString (hexToRgbInt (bgColor cell)))
      else [])
  ++ (if truthy (vAlign cell)
      then lit " " ++ attr "vAlign" (unwrap (vAlign cell)) else []).

(** [columnCount] and [columnSpans] of [processTable]. *)
Definition tableColumnCount (table : Table) : nat :=
  match length (columnWidths table) with
  | 0 => match rows table with
         | row0 :: _ => length (cells row0)
         | [] => 1
         end
  | n => n
  end.

Definition tableColumnSpans (table : Table) : jsstring :=
  if 0 <? length (columnWidths table)
  then
    let total := fold_left numAdd (columnWidths table) numZero in
    join (lit ",")
         (map (fun w => numToString (roundShare w total))
              (columnWidths table))
  else
    let equalWidth := roundEqual (tableColumnCount table) in
    join (lit ",") (repeat (numToString equalWidth) (tableColumnCount table)).

Definition borderName (b : Border) : jsstring :=
  match b with
  | BorderCell => lit "borderCell"
  | BorderNone => lit "borderNone"
  end.

(** The image element of a run whose data is resolved. *)
Definition imageLeaf (offset : nat) (data : option jsstring)
           (width height : number) : Leaf :=
  Image offset (unwrap data) (numToString width) (numToString height).

End DocumentModel.

(** [generateXml]: the template around the buffer and the elements. *)
Definition generateXml (content : jsstring) (elements : list Element) : jsstring :=
  lit "<?xml " ++ attr "version" (lit "1.0") ++ lit " "
  ++ attr "encoding" (lit "UTF-8") ++ lit " ?>" ++ [newline]
  ++ lit "<template " ++ attr "format_id" (lit "1.8") ++ lit ">" ++ [newline]
  ++ lit "<content><![CDATA[" ++ content ++ lit "]]></content>" ++ [newline]
  ++ lit "<properties><pageFormat " ++ attr "mediaSizeName" (lit "1")
  ++ lit " " ++ attr "leftMargin" (lit "42.51968479156494")
  ++ lit " " ++ attr "rightMargin" (lit "28.34645652770996")
  ++ lit " " ++ attr "topMargin" (lit "14.17322826385498")
  ++ lit " " ++ attr "bottomMargin" (lit "14.17322826385498")
  ++ lit " " ++ attr "paperOrientation" (lit "1")
  ++ lit " " ++ attr "headerFOffset" (lit "20.0")
  ++ lit " " ++ attr "footerFOffset" (lit "20.0")
  ++ lit " /></properties>" ++ [newline]
  ++ lit "<elements " ++ attr "resolver" (lit "hvl-default") ++ lit ">"
  ++ [newline]
  ++ join [newline] (map renderElement elements) ++ [newline]
  ++ lit "</elements>" ++ [newline]
  ++ lit "<styles><style " ++ attr "name" (lit "default")
  ++ lit " " ++ attr "description" (lit "Ge" ++ [231%N] ++ lit "erli")
  ++ lit " " ++ attr "family" (lit "Dialog")
  ++ lit " " ++ attr "size" (lit "12")
  ++ lit " " ++ attr "bold" (lit "false")
  ++ lit " " ++ attr "italic" (lit "false")
  ++ lit " " ++ attr "foreground" (lit "-13421773")
  ++ lit " "
  ++ attr "FONT_ATTRIBUTE_KEY"
       (lit "javax.swing.plaf.FontUIResource[family=Dialog,name=Dialog,style=plain,size=12]")
  ++ lit " /><style " ++ attr "name" (lit "hvl-default")
  ++ lit " " ++ attr "family" (lit "Times New Roman")
  ++ lit " " ++ attr "size" (lit "12")
  ++ lit " " ++ attr "description" (lit "G" ++ [246%N] ++ lit "vde")
  ++ lit " /></styles>" ++ [newline]
  ++ lit "</template>".

(** ** The footnote-aware generator ([UdfGenerator] with [collectedFootnotes]) *)

Record State : Type := {
  content : jsstring;
  elements : list Element;
  currentOffset : nat;
  collectedFootnotes : list Footnote
}.

Definition initialState : State :=
  {| content := []; elements := []; currentOffset := 0;
     collectedFootnotes := [] |}.

(** [this.content += s] *)
Definition appendContent (s : jsstring) (st : State) : State :=
  {| content := content st ++ s; elements := elements st;
     currentOffset := currentOffset st;
     collectedFootnotes := collectedFootnotes st |}.

(** [this.currentOffset += n] *)
Definition advance (n : nat) (st : State) : State :=
  {| content := content st; elements := elements st;
     currentOffset := currentOffset st + n;
     collectedFootnotes := collectedFootnotes st |}.

(** [this.elements.push(e)] *)
Definition pushElement (e : Element) (st : State) : State :=
  {| content := content st; elements := elements st ++ [e];
     currentOffset := currentOffset st;
     collectedFootnotes := collectedFootnotes st |}.

(** [this.collectedFootnotes.push(f)] *)
Definition pushFootnote (f : Footnote) (st : State) : State :=
  {| content := content st; elements := elements st;
     currentOffset := currentOffset st;
     collectedFootnotes := collectedFootnotes st ++ [f] |}.

(** [this.collectedFootnotes = []] *)
Definition clearFootnotes (st : State) : State :=
  {| content := content st; elements := elements st;
     currentOffset := currentOffset st; collectedFootnotes := [] |}.

(** One iteration of the loop of [appendFootnotesSection]. *)
Definition appendFootnote (st : State) (footnote : Footnote) : State :=
  let st := advance 1 (appendContent [newline] st) in
  let numPart := fnNumber footnote ++ lit ". " in
  let textPart := fnText footnote in
  let sup := Content (currentOffset st) (length numPart) superscriptAttrs in
  let st := advance (length numPart) (appendContent numPart st) in
  let body := Content (currentOffset st) (length textPart) footnoteTextAttrs in
  let st := advance (length textPart) (appendContent textPart st) in
  pushElement (EParagraph (defaultParagraph [sup; body])) st.

Definition appendFootnotesSection (st : State) : State :=
  let st :=
    pushElement
      (EParagraph
         (defaultParagraph [Content (currentOffset st) 1 defaultContentAttrs]))
      st in
  let st := advance 1 (appendContent [newline] st) in
  let st :=
    pushElement
      (EParagraph
         (defaultParagraph
            [Content (currentOffset st) (length separator) footnoteTextAttrs]))
      st in
  let st := advance (length separator) (appendContent separator st) in
  fold_left appendFootnote (collectedFootnotes st) st.

Section Generator.
Context {Num : JsNumber}.

(** The locals of [processParagraph] together with [this]. *)
Record ParagraphLoop : Type := {
  paraContent : list jsstring;
  paraElements : list Leaf;
  self : State
}.

(** [paraElements.push(e); paraContent.push(s); this.currentOffset += s.length] *)
Definition collect (e : Leaf) (s : jsstring) (loop : ParagraphLoop)
  : ParagraphLoop :=
  {| paraContent := paraContent loop ++ [s];
     paraElements := paraElements loop ++ [e];
     self := advance (length s) (self loop) |}.

(** The body of the loop over [paragraph.runs], for every run type but
    [pageBreak], which leaves the function. *)
Definition collectRun (run : Run) (loop : ParagraphLoop) : ParagraphLoop :=
  let offset := currentOffset (self loop) in
  match run with
  | TextRun t =>
      collect (Content offset (length (text t)) (buildContentAttrs t))
              (text t) loop
  | TabRun => collect (Tab offset) [tabChar] loop
  | ImageRun data width height =>
      if truthy data
      then collect (imageLeaf offset data width height) [objectReplacement] loop
      else loop
  | BreakRun =>
      {| paraContent := paraContent loop ++ [[newline]];
         paraElements := paraElements loop;
         self := advance 1 (self loop) |}
  | PageBreakRun => loop
  | FootnoteRefRun footnoteNum footnoteText =>
      let st :=
        pushFootnote {| fnNumber := footnoteNum; fnText := footnoteText |}
                     (self loop) in
      collect (Content offset (length footnoteNum) superscriptAttrs)
              footnoteNum
              {| paraContent := paraContent loop;
                 paraElements := paraElements loop; self := st |}
  end.

(** The page-break branch up to the footnote test: the collected text goes
    to the buffer and, if there is any element, the paragraph is pushed. *)
Definition flushCollected (paragraph : Paragraph) (loop : ParagraphLoop)
  : State :=
  let st := appendContent (join [] (paraContent loop)) (self loop) in
  match paraElements loop with
  | [] => st
  | _ :: _ =>
      pushElement
        (EParagraph (buildParagraphElement paragraph (paraElements loop))) st
  end.

(** The page-break branch: flush, footnotes of this page, marker, return. *)
Definition pageBreak (paragraph : Paragraph) (loop : ParagraphLoop) : State :=
  let st := flushCollected paragraph loop in
  let st :=
    match collectedFootnotes st with
    | [] => st
    | _ :: _ => clearFootnotes (appendFootnotesSection st)
    end in
  pushElement EPageBreak st.

(** What follows the loop when no page break was met. *)
Definition finishParagraph (paragraph : Paragraph) (loop : ParagraphLoop)
  : State :=
  let loop :=
    match paraContent loop with
    | [] =>
        collect (Content (currentOffset (self loop)) 1 defaultContentAttrs)
                [zeroWidthSpace] loop
    | _ :: _ => loop
    end in
  let st := appendContent (join [] (paraContent loop)) (self loop) in
  pushElement
    (EParagraph (buildParagraphElement paragraph (paraElements loop))) st.

Fixpoint paragraphRuns (paragraph : Paragraph) (rs : list Run)
         (loop : ParagraphLoop) : State :=
  match rs with
  | [] => finishParagraph paragraph loop
  | PageBreakRun :: _ => pageBreak paragraph loop
  | run :: rest => paragraphRuns paragraph rest (collectRun run loop)
  end.

Definition processParagraph (paragraph : Paragraph) (st : State) : State :=
  paragraphRuns paragraph (runs paragraph)
                {| paraContent := []; paraElements := []; self := st |}.

(** [processTableCell]: the text goes to the buffer at once. *)
Definition cellEmit (e : Leaf) (s : jsstring) (acc : list Leaf * State)
  : list Leaf * State :=
  (fst acc ++ [e], advance (length s) (appendContent s (snd acc))).

(** The body of the loop over the runs of a cell paragraph; [break] and
    [pageBreak] match no branch. *)
Definition cellRun (acc : list Leaf * State) (run : Run) : list Leaf * State :=
  let offset := currentOffset (snd acc) in
  match run with
  | TextRun t =>
      cellEmit (Content offset (length (text t)) (buildContentAttrs t))
               (text t) acc
  | TabRun => cellEmit (Tab offset) [tabChar] acc
  | ImageRun data width height =>
      if truthy data
      then cellEmit (imageLeaf offset data width height) [objectReplacement] acc
      else acc
  | FootnoteRefRun footnoteNum footnoteText =>
      let st :=
        pushFootnote {| fnNumber := footnoteNum; fnText := footnoteText |}
                     (snd acc) in
      cellEmit (Content offset (length footnoteNum) superscriptAttrs)
               footnoteNum (fst acc, st)
  | BreakRun => acc
  | PageBreakRun => acc
  end.

(** One paragraph of a cell, without the newline that may follow it. *)
Definition cellParagraph (paragraph : Paragraph) (st : State)
  : ParagraphEl * State :=
  let acc := fold_left cellRun (runs paragraph) ([], st) in
  let acc :=
    match fst acc with
    | [] =>
        (* the element takes the cursor before the cursor moves *)
        ([Content (currentOffset (snd acc)) 1 defaultContentAttrs],
         advance 1 (appendContent [space] (snd acc)))
    | _ :: _ => acc
    end in
  (buildParagraphElement paragraph (fst acc), snd acc).

(** The loop over [cell.paragraphs]; [i < cell.paragraphs.length - 1]
    holds exactly when a paragraph follows. *)
Fixpoint cellParagraphs (ps : list Paragraph) (cellElements : list ParagraphEl)
         (st : State) : list ParagraphEl * State :=
  match ps with
  | [] => (cellElements, st)
  | paragraph :: rest =>
      let '(el, st) := cellParagraph paragraph st in
      let st :=
        match rest with
        | [] => st
        | _ :: _ => advance 1 (appendContent [newline] st)
        end in
      cellParagraphs rest (cellElements ++ [el]) st
  end.

Definition processTableCell (cell : Cell) (st : State)
  : list ParagraphEl * State :=
  let '(cellElements, st) := cellParagraphs (paragraphs cell) [] st in
  match cellElements with
  | [] =>
      ([defaultParagraph [Content (currentOffset st) 1 defaultContentAttrs]],
       advance 1 (appendContent [space] st))
  | _ :: _ => (cellElements, st)
  end.

(** The loop over [row.cells]. *)
Fixpoint rowCellsLoop (cs : list Cell) (cellElements : list CellEl)
         (st : State) : list CellEl * State :=
  match cs with
  | [] => (cellElements, st)
  | cell :: rest =>
      if vMergeContinue cell then rowCellsLoop rest cellElements st
      else
        let '(cellContent, st) := processTableCell cell st in
        rowCellsLoop rest
          (cellElements
             ++ [{| cellAttrs := buildCellAttrs cell;
                    cellContent := cellContent |}])
          st
  end.

(** The loop over [table.rows]; [i] is the index of the first row of [rs]. *)
Fixpoint tableRowsLoop (rs : list Row) (i : nat) (rowElements : list RowEl)
         (st : State) : list RowEl * State :=
  match rs with
  | [] => (rowElements, st)
  | row :: rest =>
      let '(cellElements, st) := rowCellsLoop (cells row) [] st in
      tableRowsLoop rest (S i)
        (rowElements ++ [{| rowNumber := i + 1; rowCells := cellElements |}])
        st
  end.

Definition processTable (table : Table) (st : State) : State :=
  let columnCount := tableColumnCount table in
  let columnSpans := tableColumnSpans table in
  let '(rowElements, st) := tableRowsLoop (rows table) 0 [] st in
  pushElement
    (ETable columnCount columnSpans (borderName (border table)) rowElements)
    st.

Definition processElement (st : State) (element : Block) : State :=
  match element with
  | BParagraph paragraph => processParagraph paragraph st
  | BTable table => processTable table st
  end.

(** The loop of [generate] over [document.elements]. *)
Definition processElements (blocks : list Block) (st : State) : State :=
  fold_left processElement blocks st.

(** The flush at the end of the document. *)
Definition flushAtEnd (st : State) : State :=
  match collectedFootnotes st with
  | [] => st
  | _ :: _ => appendFootnotesSection st
  end.

(** The placeholder of a document without content. *)
Definition ensureContent (st : State) : State :=
  match content st with
  | [] =>
      pushElement
        (EParagraph (defaultParagraph [Content 0 1 defaultContentAttrs]))
        {| content := [zeroWidthSpace]; elements := elements st;
           currentOffset := currentOffset st;
           collectedFootnotes := collectedFootnotes st |}
  | _ :: _ => st
  end.

(** [generate] up to the call of [generateXml]. *)
Definition serialize (document : Document) : State :=
  ensureContent (flushAtEnd (processElements (docElements document) initialState)).

(** The XML that [generate] hands to the packager. *)
Definition generate (document : Document) : jsstring :=
  let st := serialize document in
  generateXml (content st) (elements st).

End Generator.

(** ** The generator of [js/udf-generator.js]

    It has no [collectedFootnotes] and no branch for [footnoteRef] runs;
    every other line is the text of the generator above. *)
Module Legacy.

Record State : Type := {
  content : jsstring;
  elements : list Element;
  currentOffset : nat
}.

Definition initialState : State :=
  {| content := []; elements := []; currentOffset := 0 |}.

Definition appendContent (s : jsstring) (st : State) : State :=
  {| content := content st ++ s; elements := elements st;
     currentOffset := currentOffset st |}.

Definition advance (n : nat) (st : State) : State :=
  {| content := content st; elements := elements st;
     currentOffset := currentOffset st + n |}.

Definition pushElement (e : Element) (st : State) : State :=
  {| content := content st; elements := elements st ++ [e];
     currentOffset := currentOffset st |}.

Section Generator.
Context {Num : JsNumber}.

Record ParagraphLoop : Type := {
  paraContent : list jsstring;
  paraElements : list Leaf;
  self : State
}.

Definition collect (e : Leaf) (s : jsstring) (loop : ParagraphLoop)
  : ParagraphLoop :=
  {| paraContent := paraContent loop ++ [s];
     paraElements := paraElements loop ++ [e];
     self := advance (length s) (self loop) |}.

Definition collectRun (run : Run) (loop : ParagraphLoop) : ParagraphLoop :=
  let offset := currentOffset (self loop) in
  match run with
  | TextRun t =>
      collect (Content offset (length (text t)) (buildContentAttrs t))
              (text t) loop
  | TabRun => collect (Tab offset) [tabChar] loop
  | ImageRun data width height =>
      if truthy data
      then collect (imageLeaf offset data width height)
                   [objectReplacement] loop
      else loop
  | BreakRun =>
      {| paraContent := paraContent loop ++ [[newline]];
         paraElements := paraElements loop;
         self := advance 1 (self loop) |}
  | PageBreakRun => loop
  | FootnoteRefRun _ _ => loop
  end.

Definition pageBreak (paragraph : Paragraph) (loop : ParagraphLoop) : State :=
  let st := appendContent (join [] (paraContent loop)) (self loop) in
  let st :=
    match paraElements loop with
    | [] => st
    | _ :: _ =>
        pushElement
          (EParagraph (buildParagraphElement paragraph (paraElements loop)))
          st
    end in
  pushElement EPageBreak st.

Definition finishParagraph (paragraph : Paragraph) (loop : ParagraphLoop)
  : State :=
  let loop :=
    match paraContent loop with
    | [] =>
        collect (Content (currentOffset (self loop)) 1 defaultContentAttrs)
                [zeroWidthSpace] loop
    | _ :: _ => loop
    end in
  let st := appendContent (join [] (paraContent loop)) (self loop) in
  pushElement
    (EParagraph (buildParagraphElement paragraph (paraElements loop))) st.

Fixpoint paragraphRuns (paragraph : Paragraph) (rs : list Run)
         (loop : ParagraphLoop) : State :=
  match rs with
  | [] => finishParagraph paragraph loop
  | PageBreakRun :: _ => pageBreak paragraph loop
  | run :: rest => paragraphRuns paragraph rest (collectRun run loop)
  end.

Definition processParagraph (paragraph : Paragraph) (st : State) : State :=
  paragraphRuns paragraph (runs paragraph)
                {| paraContent := []; paraElements := []; self := st |}.

Definition cellEmit (e : Leaf) (s : jsstring) (acc : list Leaf * State)
  : list Leaf * State :=
  (fst acc ++ [e], advance (length s) (appendContent s (snd acc))).

Definition cellRun (acc : list Leaf * State) (run : Run)
  : list Leaf * State :=
  let offset := currentOffset (snd acc) in
  match run with
  | TextRun t =>
      cellEmit (Content offset (length (text t)) (buildContentAttrs t))
               (text t) acc
  | TabRun => cellEmit (Tab offset) [tabChar] acc
  | ImageRun data width height =>
      if truthy data
      then cellEmit (imageLeaf offset data width height)
                    [objectReplacement] acc
      else acc
  | BreakRun => acc
  | PageBreakRun => acc
  | FootnoteRefRun _ _ => acc
  end.

Definition cellParagraph (paragraph : Paragraph) (st : State)
  : ParagraphEl * State :=
  let acc := fold_left cellRun (runs paragraph) ([], st) in
  let acc :=
    match fst acc with
    | [] =>
        ([Content (currentOffset (snd acc)) 1 defaultContentAttrs],
         advance 1 (appendContent [space] (snd acc)))
    | _ :: _ => acc
    end in
  (buildParagraphElement paragraph (fst acc), snd acc).

Fixpoint cellParagraphs (ps : list Paragraph)
         (cellElements : list ParagraphEl) (st : State)
  : list ParagraphEl * State :=
  match ps with
  | [] => (cellElements, st)
  | paragraph :: rest =>
      let '(el, st) := cellParagraph paragraph st in
      let st :=
        match rest with
        | [] => st
        | _ :: _ => advance 1 (appendContent [newline] st)
        end in
      cellParagraphs rest (cellElements ++ [el]) st
  end.

Definition processTableCell (cell : Cell) (st : State)
  : list ParagraphEl * State :=
  let '(cellElements, st) := cellParagraphs (paragraphs cell) [] st in
  match cellElements with
  | [] =>
      ([defaultParagraph
          [Content (currentOffset st) 1 defaultContentAttrs]],
       advance 1 (appendContent [space] st))
  | _ :: _ => (cellElements, st)
  end.

Fixpoint rowCellsLoop (cs : list Cell) (cellElements : list CellEl)
         (st : State) : list CellEl * State :=
  match cs with
  | [] => (cellElements, st)
  | cell :: rest =>
      if vMergeContinue cell then rowCellsLoop rest cellElements st
      else
        let '(cellContent, st) := processTableCell cell st in
        rowCellsLoop rest
          (cellElements
             ++ [{| cellAttrs := buildCellAttrs cell;
                    cellContent := cellContent |}])
          st
  end.

Fixpoint tableRowsLoop (rs : list Row) (i : nat) (rowElements : list RowEl)
         (st : State) : list RowEl * State :=
  match rs with
  | [] => (rowElements, st)
  | row :: rest =>
      let '(cellElements, st) := rowCellsLoop (cells row) [] st in
      tableRowsLoop rest (S i)
        (rowElements
           ++ [{| rowNumber := i + 1; rowCells := cellElements |}])
        st
  end.

Definition processTable (table : Table) (st : State) : State :=
  let columnCount := tableColumnCount table in
  let columnSpans := tableColumnSpans table in
  let '(rowElements, st) := tableRowsLoop (rows table) 0 [] st in
  pushElement
    (ETable columnCount columnSpans (borderName (border table)) rowElements)
    st.

Definition processElement (st : State) (element : Block) : State :=
  match element with
  | BParagraph paragraph => processParagraph paragraph st
  | BTable table => processTable table st
  end.

Definition processElements (blocks : list Block) (st : State) : State :=
  fold_left processElement blocks st.

Definition ensureContent (st : State) : State :=
  match content st with
  | [] =>
      pushElement
        (EParagraph (defaultParagraph [Content 0 1 defaultContentAttrs]))
        {| content := [zeroWidthSpace]; elements := elements st;
           currentOffset := currentOffset st |}
  | _ :: _ => st
  end.

Definition serialize (document : Document) : State :=
  ensureContent (processElements (docElements document) initialState).

Definition generate (document : Document) : jsstring :=
  let st := serialize document in
  generateXml (content st) (elements st).

End Generator.
End Legacy.

(** ** The error path of [DocxParser.parse]

    The archive reader, the XML parser and the DOM traversals are external:
    each step either yields a value or throws. [parse] runs them inside one
    [try] block. *)
Inductive Result (E A : Type) : Type :=
| Ok (a : A)
| Throw (e : E).
Arguments Ok {E A} a.
Arguments Throw {E A} e.

Definition bind {E A B : Type} (m : Result E A) (k : A -> Result E B)
  : Result E B :=
  match m with
  | Ok a => k a
  | Throw e => Throw e
  end.

Notation "x <- m ;; k" := (bind m (fun x => k))
  (at level 61, m at next level, right associativity).

(** The value of [new Error(message)]: a name, a message and, when one is
    given, a cause. *)
Record ErrorObject (E : Type) : Type := {
  errName : jsstring;
  errMessage : jsstring;
  errCause : option E
}.

(** What a call of [parse] does: it returns the document, or it logs the
    caught value on the console and throws. *)
Inductive Outcome (E D : Type) : Type :=
| Returned (document : D)
| Raised (logged : E) (error : ErrorObject E).
Arguments Returned {E D} document.
Arguments Raised {E D} logged error.

Section Parser.
Context {Num : JsNumber}.

(** The values the steps work on and the value a failing step throws. *)
Variables File Zip XmlDocument Relationships Images Exception : Type.

(** [JSZip.loadAsync(file)] *)
Variable loadAsync : File -> Result Exception Zip.
(** [this.parseRelationships()] and [this.extractImages()] *)
Variable parseRelationships : Zip -> Result Exception Relationships.
Variable extractImages : Zip -> Result Exception Images.
(** [this.zip.file('word/document.xml').async('string')], which throws a
    [TypeError] when the entry is missing *)
Variable readDocumentXml : Zip -> Result Exception jsstring.
(** [parseXml]: [DOMParser.parseFromString] does not throw *)
Variable parseXml : jsstring -> XmlDocument.
(** [this.extractElements()] *)
Variable extractElements :
  XmlDocument -> Relationships -> Images -> Result Exception (list Block).

Record ParsedDocument : Type := {
  parsedElements : list Block;
  parsedImages : Images
}.

Definition parseError : ErrorObject Exception :=
  {| errName := lit "Error";
     errMessage :=
       lit "Failed to parse DOCX file. Make sure it is a valid Word document.";
     errCause := None |}.

(** The body of the [try] block. *)
Definition parseSteps (file : File) : Result Exception ParsedDocument :=
  zip <- loadAsync file ;;
  relationships <- parseRelationships zip ;;
  images <- extractImages zip ;;
  documentXml <- readDocumentXml zip ;;
  elements <- extractElements (parseXml documentXml) relationships images ;;
  Ok {| parsedElements := elements; parsedImages := images |}.

Definition parse (file : File) : Outcome Exception ParsedDocument :=
  match parseSteps file with
  | Ok document => Returned document
  | Throw error => Raised error parseError
  end.

End Parser.

(** ** Notions used by the properties *)

(** The code units that [hexDigit] accepts. *)
Definition hexChars : list N :=
  map N.of_nat (seq 48 10 ++ seq 65 6 ++ seq 97 6).

Definition optZ_eqb (a b : option Z) : bool :=
  match a, b with
  | Some x, Some y => Z.eqb x y
  | None, None => true
  | _, _ => false
  end.

(** The cursor is the length of the buffer. *)
Definition synced (st : State) : Prop := length (content st) = currentOffset st.

(** [Tiles off ls buf g]: read from offset [off] on, the buffer [buf] is
    the ranges of the elements [ls], in their order, with nothing between
    them but newline characters, [g] of them in all. With [g = 0] the
    ranges partition the buffer. *)
Inductive Tiles : nat -> list Leaf -> jsstring -> nat -> Prop :=
| tiles_end : forall off, Tiles off [] [] 0
| tiles_newline : forall off ls buf g,
    Tiles (S off) ls buf g -> Tiles off ls (newline :: buf) (S g)
| tiles_leaf : forall off l ls seg buf g,
    leafStart l = off ->
    length seg = leafLength l ->
    Tiles (off + leafLength l) ls buf g ->
    Tiles off (l :: ls) (seg ++ buf) g.

(** Ranges in emission order that do not overlap and stay below [bound]. *)
Fixpoint Ordered (off : nat) (ls : list Leaf) (bound : nat) : Prop :=
  match ls with
  | [] => off <= bound
  | l :: rest =>
      off <= leafStart l /\ Ordered (leafStart l + leafLength l) rest bound
  end.

(** [Extends st st' ls g]: from [st] to [st'] the buffer grew by a text
    that the elements [ls] tile from the cursor of [st] on, with [g]
    unclaimed newlines, and the cursor moved by the length of that text. *)
Definition Extends (st st' : State) (ls : list Leaf) (g : nat) : Prop :=
  exists added,
    content st' = content st ++ added
    /\ currentOffset st' = currentOffset st + length added
    /\ Tiles (currentOffset st) ls added g.

(** [Adds st st' ls n]: as [Extends], and the unclaimed newlines written
    together with the footnotes that became pending are [n]: each pending
    footnote is a newline still to come. *)
Definition Adds (st st' : State) (ls : list Leaf) (n : nat) : Prop :=
  exists g,
    Extends st st' ls g
    /\ g + length (collectedFootnotes st')
       = length (collectedFootnotes st) + n.

(** [Emits st st' n]: [st'] has the elements of [st] and further ones,
    which tile what was added to the buffer. *)
Definition Emits (st st' : State) (n : nat) : Prop :=
  exists ls,
    leaves (elements st') = leaves (elements st) ++ ls /\ Adds st st' ls n.

(** The section a footnote flush writes, in the words of the
    specification: a blank line, the rule, then per footnote a newline, the
    superscripted label and the body. [offset] is the cursor at the flush. *)
Fixpoint footnoteParagraphs (offset : nat) (fs : list Footnote) : list Element :=
  match fs with
  | [] => []
  | f :: rest =>
      let label := fnNumber f ++ lit ". " in
      EParagraph
        (defaultParagraph
           [Content (offset + 1) (length label) superscriptAttrs;
            Content (offset + 1 + length label) (length (fnText f))
                    footnoteTextAttrs])
      :: footnoteParagraphs (offset + 1 + length label + length (fnText f)) rest
  end.

Fixpoint footnoteLines (fs : list Footnote) : jsstring :=
  match fs with
  | [] => []
  | f :: rest =>
      [newline] ++ (fnNumber f ++ lit ". ") ++ fnText f ++ footnoteLines rest
  end.

Definition footnoteSectionElements (offset : nat) (fs : list Footnote)
  : list Element :=
  [EParagraph (defaultParagraph [Content offset 1 defaultContentAttrs]);
   EParagraph (defaultParagraph [Content (offset + 1) 20 footnoteTextAttrs])]
  ++ footnoteParagraphs (offset + 21) fs.

Definition footnoteSectionText (fs : list Footnote) : jsstring :=
  [newline] ++ separator ++ footnoteLines fs.

Section Notions.
Context {Num : JsNumber}.

Definition startLoop (st : State) : ParagraphLoop :=
  {| paraContent := []; paraElements := []; self := st |}.

(** The loop of [processParagraph] over runs that hold no page break. *)
Definition collectRuns (rs : list Run) (loop : ParagraphLoop) : ParagraphLoop :=
  fold_left (fun l run => collectRun run l) rs loop.

Definition isPageBreak (run : Run) : bool :=
  match run with
  | PageBreakRun => true
  | _ => false
  end.

Definition isLineBreak (run : Run) : bool :=
  match run with
  | BreakRun => true
  | _ => false
  end.

Definition isFootnoteRef (run : Run) : bool :=
  match run with
  | FootnoteRefRun _ _ => true
  | _ => false
  end.

Definition footnoteOf (run : Run) : list Footnote :=
  match run with
  | FootnoteRefRun id body => [{| fnNumber := id; fnText := body |}]
  | _ => []
  end.

(** The runs of a body paragraph that are processed. *)
Fixpoint beforePageBreak (rs : list Run) : list Run :=
  match rs with
  | [] => []
  | PageBreakRun :: _ => []
  | run :: rest => run :: beforePageBreak rest
  end.

Definition renderedCells (row : Row) : list Cell :=
  filter (fun c => negb (vMergeContinue c)) (cells row).

(** The state of [this] once the collected text is in the buffer. *)
Definition flushed (loop : ParagraphLoop) : State :=
  appendContent (join [] (paraContent loop)) (self loop).

(** The invariant of the loop of [processParagraph] started in [st0]. *)
Definition LoopInv (st0 : State) (loop : ParagraphLoop) (n : nat) : Prop :=
  elements (self loop) = elements st0
  /\ Adds st0 (flushed loop) (paraElements loop) n.

Definition gapRuns (rs : list Run) : nat :=
  length (filter (fun r => isLineBreak r || isFootnoteRef r) rs).

(** *** Newlines that no element claims

    One per processed line-break run of a body paragraph, one between two
    paragraphs of a rendered cell, one before each footnote of a flush
    (every processed reference is flushed once). *)
Definition paragraphNewlines (p : Paragraph) : nat :=
  gapRuns (beforePageBreak (runs p)).

Definition cellNewlines (c : Cell) : nat :=
  (length (paragraphs c) - 1)
  + length (flat_map (fun p => filter isFootnoteRef (runs p)) (paragraphs c)).

Definition tableNewlines (t : Table) : nat :=
  list_sum
    (map (fun row => list_sum (map cellNewlines (renderedCells row)))
         (rows t)).

Definition blockNewlines (b : Block) : nat :=
  match b with
  | BParagraph p => paragraphNewlines p
  | BTable t => tableNewlines t
  end.

Definition unclaimedNewlines (document : Document) : nat :=
  list_sum (map blockNewlines (docElements document)).

(** *** The footnotes pending after a run of blocks

    A body paragraph adds the references before its page break, or
    empties the list when it has a page break; a table adds those of its
    rendered cells. *)
Fixpoint paragraphPending (rs : list Run) (pending : list Footnote)
  : list Footnote :=
  match rs with
  | [] => pending
  | PageBreakRun :: _ => []
  | run :: rest => paragraphPending rest (pending ++ footnoteOf run)
  end.

Definition cellFootnotes (c : Cell) : list Footnote :=
  flat_map (fun p => flat_map footnoteOf (runs p)) (paragraphs c).

Definition tableFootnotes (t : Table) : list Footnote :=
  flat_map (fun row => flat_map cellFootnotes (renderedCells row)) (rows t).

Definition blockPending (pending : list Footnote) (b : Block) : list Footnote :=
  match b with
  | BParagraph p => paragraphPending (runs p) pending
  | BTable t => pending ++ tableFootnotes t
  end.

Definition pendingAfter (blocks : list Block) (pending : list Footnote)
  : list Footnote :=
  fold_left blockPending blocks pending.

(** *** The states right after each footnote flush

    [paragraphFlushes] follows [paragraphRuns] and records the state
    that [appendFootnotesSection] returns in [pageBreak]; [flushPoints]
    adds the flush at the end of [generate]. *)
Fixpoint paragraphFlushes (paragraph : Paragraph) (rs : list Run)
         (loop : ParagraphLoop) : list State :=
  match rs with
  | [] => []
  | PageBreakRun :: _ =>
      let st := flushCollected paragraph loop in
      match collectedFootnotes st with
      | [] => []
      | _ :: _ => [appendFootnotesSection st]
      end
  | run :: rest => paragraphFlushes paragraph rest (collectRun run loop)
  end.

Definition elementFlushes (st : State) (element : Block) : list State :=
  match element with
  | BParagraph paragraph =>
      paragraphFlushes paragraph (runs paragraph) (startLoop st)
  | BTable _ => []
  end.

Fixpoint elementsFlushes (blocks : list Block) (st : State) : list State :=
  match blocks with
  | [] => []
  | b :: rest => elementFlushes st b ++ elementsFlushes rest (processElement st b)
  end.

Definition flushPoints (document : Document) : list State :=
  let st := processElements (docElements document) initialState in
  elementsFlushes (docElements document) initialState
  ++ match collectedFootnotes st with
     | [] => []
     | _ :: _ => [appendFootnotesSection st]
     end.

(** *** Documents without footnote references, cells without breaks *)
Definition paragraphNoFootnoteRef (p : Paragraph) : bool :=
  forallb (fun r => negb (isFootnoteRef r)) (runs p).

Definition tableNoFootnoteRef (t : Table) : bool :=
  forallb (fun row =>
             forallb (fun c => forallb paragraphNoFootnoteRef (paragraphs c))
                     (cells row))
          (rows t).

Definition noFootnoteRef (document : Document) : bool :=
  forallb (fun b => match b with
                    | BParagraph p => paragraphNoFootnoteRef p
                    | BTable t => tableNoFootnoteRef t
                    end)
          (docElements document).

Definition withRuns (p : Paragraph) (rs : list Run) : Paragraph :=
  {| alignment := alignment p; leftIndent := leftIndent p;
     rightIndent := rightIndent p; firstLineIndent := firstLineIndent p;
     numbering := numbering p; runs := rs |}.

Definition withoutBreaks (p : Paragraph) : Paragraph :=
  withRuns p (filter (fun r => negb (isLineBreak r || isPageBreak r)) (runs p)).

Definition cellWithoutBreaks (c : Cell) : Cell :=
  {| paragraphs := map withoutBreaks (paragraphs c); colspan := colspan c;
     vAlign := vAlign c; bgColor := bgColor c;
     vMergeContinue := vMergeContinue c; vMergeStart := vMergeStart c |}.

(** *** Counts used by the invariants *)
Definition refCount (rs : list Run) : nat := length (filter isFootnoteRef rs).

Definition cellRefCount (ps : list Paragraph) : nat :=
  length (flat_map (fun p => filter isFootnoteRef (runs p)) ps).

Definition rowNewlines (cs : list Cell) : nat :=
  list_sum (map cellNewlines (filter (fun c => negb (vMergeContinue c)) cs)).

Definition rowsNewlines (rs : list Row) : nat :=
  list_sum (map (fun row => list_sum (map cellNewlines (renderedCells row))) rs).

(** *** The footnote-aware state seen by the older generator *)
Definition forget (st : State) : Legacy.State :=
  {| Legacy.content := content st; Legacy.elements := elements st;
     Legacy.currentOffset := currentOffset st |}.

Definition forgetLoop (loop : ParagraphLoop) : Legacy.ParagraphLoop :=
  {| Legacy.paraContent := paraContent loop;
     Legacy.paraElements := paraElements loop;
     Legacy.self := forget (self loop) |}.

Definition forgetPair {A : Type} (r : A * State) : A * Legacy.State :=
  (fst r, forget (snd r)).

Definition withoutContinuation (row : Row) : Row :=
  {| cells := renderedCells row |}.

End Notions.

(** ** Concrete documents and collaborators *)

Definition plainText (s : string) : Run (Num := intNumber) :=
  TextRun
    (Build_TextProps (Num := intNumber) (lit s) false false false false
                     (lit "Times New Roman") 12%Z None).

Definition plainParagraph (rs : list (Run (Num := intNumber)))
  : Paragraph (Num := intNumber) :=
  Build_Paragraph (Num := intNumber) AlignLeft None None None None rs.

Definition plainCell (continuation : bool)
           (ps : list (Paragraph (Num := intNumber))) : Cell (Num := intNumber) :=
  Build_Cell (Num := intNumber) ps 1%Z (Some (lit "top")) None continuation
             false.

(** A paragraph [a], line break, [b]. *)
Definition lineBreakDocument : Document (Num := intNumber) :=
  {| docElements :=
       [BParagraph (plainParagraph [plainText "a"; BreakRun; plainText "b"])] |}.

(** A paragraph with a footnote reference before a page break and text
    after it. *)
Definition pageBreakParagraph : Paragraph (Num := intNumber) :=
  plainParagraph
    [plainText "a"; FootnoteRefRun (lit "1") (lit "note"); PageBreakRun;
     plainText "b"].

(** A paragraph with nothing but a line break before its page break, and
    a cell that holds the paragraph [a], reference 1, page break, [b]. *)
Definition breakThenPageBreak : Paragraph (Num := intNumber) :=
  plainParagraph [BreakRun; PageBreakRun; plainText "b"].

Definition pageBreakCell : Cell (Num := intNumber) :=
  plainCell false [pageBreakParagraph].

(** A table of one row: a rendered cell and a continuation cell, both with
    text and a line break. *)
Definition mergedTable : Table (Num := intNumber) :=
  Build_Table (Num := intNumber)
    [{| cells :=
          [plainCell false [plainParagraph [plainText "x"; BreakRun]];
           plainCell true [plainParagraph [plainText "y"]]] |}]
    [100%Z; 200%Z] BorderCell.

Definition plainDocument : Document (Num := intNumber) :=
  {| docElements :=
       [BParagraph (plainParagraph [plainText "a"; TabRun; PageBreakRun]);
        BTable mergedTable;
        BParagraph (plainParagraph [])] |}.

(** Collaborators of [parse] for which the archive of the file [true]
    cannot be loaded and the body of the file [false] fails during the
    extraction of the elements. *)
Definition failingLoad (file : bool) : Result nat unit :=
  if file then Throw 1 else Ok tt.

Definition failingExtract (_ _ _ : unit)
  : Result nat (list (Block (Num := intNumber))) :=
  Throw 2.

Definition sampleParse (file : bool)
  : Outcome nat (ParsedDocument (Num := intNumber) unit) :=
  parse failingLoad (fun _ => Ok tt) (fun _ => Ok tt) (fun _ => Ok [])
        (fun _ => tt) failingExtract file.

(** The two kinds of parser error that the specification names. *)
Inductive ErrorKind : Type := MalformedPackageError | UnsupportedDocumentError.

Definition raisedError {E D : Type} (o : Outcome E D) : option (ErrorObject E) :=
  match o with
  | Returned _ => None
  | Raised _ error => Some error
  end.

(** ** Further functions of the sources *)

(** *** [js/utils.js] *)

(** [s.replace(/c/g, rep)] for a pattern of one character. *)
Definition replaceAll (c : N) (rep : jsstring) (s : jsstring) : jsstring :=
  flat_map (fun x => if N.eqb x c then rep else [x]) s.

(** [escapeXml] as the source writes it: the guard, then five global
    replacements, one after the other. *)
Definition escapeXmlChain (text : option jsstring) : jsstring :=
  if negb (truthy text) then []
  else
    replaceAll 39 (lit "&apos;")
      (replaceAll 34 (lit "&quot;")
         (replaceAll 62 (lit "&gt;")
            (replaceAll 60 (lit "&lt;")
               (replaceAll 38 (lit "&amp;") (unwrap text))))).

Definition isXmlSpecial (c : N) : bool :=
  existsb (N.eqb c) [60; 62; 34; 39]%N.

(** [s.startsWith(p)] *)
Fixpoint startsWith (p s : jsstring) : bool :=
  match p, s with
  | [], _ => true
  | _ :: _, [] => false
  | a :: p', b :: s' => N.eqb a b && startsWith p' s'
  end.

(** [s.replace(p, r)] for a string pattern and a replacement without [$]:
    the first occurrence of [p] becomes [r]. *)
Fixpoint replaceSubstring (p r s : jsstring) : jsstring :=
  if startsWith p s then r ++ skipn (length p) s
  else match s with
       | [] => []
       | x :: rest => x :: replaceSubstring p r rest
       end.

(** [s.includes(p)], the occurrences that [replace] looks for. *)
Fixpoint includes (p s : jsstring) : bool :=
  startsWith p s
  || match s with
     | [] => false
     | _ :: rest => includes p rest
     end.

(** [s.split(c)] for a separator of one character: never empty. *)
Fixpoint split (c : N) (s : jsstring) : list jsstring :=
  match s with
  | [] => [[]]
  | x :: rest =>
      if N.eqb x c then [] :: split c rest
      else match split c rest with
           | piece :: pieces => (x :: piece) :: pieces
           | [] => [[x]]
           end
  end.

(** [toLowerCase] on the code units below 128; the letters beyond are
    left as they are, and the properties below do not depend on them. *)
Definition toLowerCase (s : jsstring) : jsstring :=
  map (fun c => if (N.leb 65 c && N.leb c 90)%N then (c + 32)%N else c) s.

(** [getFileExtension]: [filename.split('.').pop().toLowerCase()]. *)
Definition getFileExtension (filename : jsstring) : jsstring :=
  toLowerCase (last (split 46 filename) []).

(** The alphabet of [btoa]. *)
Definition base64Digit (i : N) : N :=
  if (i <? 26)%N then (65 + i)%N
  else if (i <? 52)%N then (97 + (i - 26))%N
  else if (i <? 62)%N then (48 + (i - 52))%N
  else if (i =? 62)%N then 43%N
  else 47%N.

(** [btoa] on the binary string of a byte array: three bytes give four
    digits, and a rest of one or two bytes is padded with [=]. *)
Fixpoint btoa (bytes : list N) : jsstring :=
  match bytes with
  | [] => []
  | [a] =>
      [base64Digit (a / 4); base64Digit ((a mod 4) * 16); 61; 61]%N
  | [a; b] =>
      [base64Digit (a / 4); base64Digit ((a mod 4) * 16 + b / 16);
       base64Digit ((b mod 16) * 4); 61]%N
  | a :: b :: c :: rest =>
      [base64Digit (a / 4); base64Digit ((a mod 4) * 16 + b / 16);
       base64Digit ((b mod 16) * 4 + c / 64); base64Digit (c mod 64)]%N
      ++ btoa rest
  end.

(** [arrayBufferToBase64]: the bytes of the [Uint8Array] become the
    characters of a binary string, which [btoa] encodes. *)
Definition arrayBufferToBase64 (buffer : list Byte.byte) : jsstring :=
  btoa (map Strings.Byte.to_N buffer).

(** *** [js/app.js]: the choice of a file *)

(** What [processFile] leaves behind: the error it shows, or the selected
    file with the name of the download. *)
Inductive Selection : Type :=
| Rejected (message : jsstring)
| Selected (name outputFilename : jsstring).

Fixpoint jsstring_eqb (a b : jsstring) : bool :=
  match a, b with
  | [], [] => true
  | x :: a', y :: b' => N.eqb x y && jsstring_eqb a' b'
  | _, _ => false
  end.

Definition processFile (name : jsstring) : Selection :=
  let extension := getFileExtension name in
  if negb (jsstring_eqb extension (lit "docx"))
  then Rejected (lit "Please select a valid Word document (.docx file)")
  else Selected name (replaceSubstring (lit ".docx") (lit ".udf") name).

(** *** What the generator writes, by kind *)

Inductive Kind : Type := KParagraph | KPageBreak | KTable.

Definition kindOf (e : Element) : Kind :=
  match e with
  | EParagraph _ => KParagraph
  | EPageBreak => KPageBreak
  | ETable _ _ _ _ => KTable
  end.

Definition isPageBreakElement (e : Element) : bool :=
  match e with
  | EPageBreak => true
  | _ => false
  end.

Section FurtherNotions.
Context {Num : JsNumber}.

Definition hasPageBreak (p : Paragraph) : bool := existsb isPageBreak (runs p).

Definition blockKind (b : Block) : Kind :=
  match b with
  | BParagraph _ => KParagraph
  | BTable _ => KTable
  end.

Definition blockHasPageBreak (b : Block) : bool :=
  match b with
  | BParagraph p => hasPageBreak p
  | BTable _ => false
  end.

(** A run that writes at least one character whenever it writes: a text
    run holds text, a footnote reference has a label; the other runs write
    one character or nothing. *)
Definition runHasText (run : Run) : bool :=
  match run with
  | TextRun t => match text t with [] => false | _ :: _ => true end
  | FootnoteRefRun id _ => match id with [] => false | _ :: _ => true end
  | _ => true
  end.

(** The footnote references that are processed, in their order: those
    before the page break of a body paragraph, those of rendered cells. *)
Definition blockFootnotes (b : Block) : list Footnote :=
  match b with
  | BParagraph p => flat_map footnoteOf (beforePageBreak (runs p))
  | BTable t => tableFootnotes t
  end.

Definition processedFootnotes (document : Document) : list Footnote :=
  flat_map blockFootnotes (docElements document).

(** A document without its footnote-reference runs. *)
Definition paragraphWithoutRefs (p : Paragraph) : Paragraph :=
  withRuns p (filter (fun r => negb (isFootnoteRef r)) (runs p)).

Definition cellWithoutRefs (c : Cell) : Cell :=
  {| paragraphs := map paragraphWithoutRefs (paragraphs c);
     colspan := colspan c; vAlign := vAlign c; bgColor := bgColor c;
     vMergeContinue := vMergeContinue c; vMergeStart := vMergeStart c |}.

Definition tableWithoutRefs (t : Table) : Table :=
  {| rows := map (fun row => {| cells := map cellWithoutRefs (cells row) |})
                 (rows t);
     columnWidths := columnWidths t; border := border t |}.

Definition blockWithoutRefs (b : Block) : Block :=
  match b with
  | BParagraph p => BParagraph (paragraphWithoutRefs p)
  | BTable t => BTable (tableWithoutRefs t)
  end.

Definition withoutFootnoteRefs (document : Document) : Document :=
  {| docElements := map blockWithoutRefs (docElements document) |}.

(** The entries of [columnSpans] before they are joined. *)
Definition columnSpanEntries (table : Table) : list jsstring :=
  if 0 <? length (columnWidths table)
  then
    let total := fold_left numAdd (columnWidths table) numZero in
    map (fun w => numToString (roundShare w total)) (columnWidths table)
  else
    repeat (numToString (roundEqual (tableColumnCount table)))
           (tableColumnCount table).

(** The text a run writes into the buffer, as the piece it pushes, in a
    body paragraph and in a paragraph of a cell. *)
Definition runText (run : Run) : list jsstring :=
  match run with
  | TextRun t => [text t]
  | TabRun => [[tabChar]]
  | ImageRun data _ _ => if truthy data then [[objectReplacement]] else []
  | BreakRun => [[newline]]
  | PageBreakRun => []
  | FootnoteRefRun id _ => [id]
  end.

Definition cellRunText (run : Run) : list jsstring :=
  match run with
  | BreakRun => []
  | _ => runText run
  end.

(** The child elements the runs of a body paragraph give, the first of
    them at [offset]: a content element for a text run and for a footnote
    reference, a tab element, an image element for a resolved image, and
    none for a line break; each element starts where the text before it
    ends. *)
Fixpoint runChildren (offset : nat) (rs : list Run) : list Leaf :=
  match rs with
  | [] => []
  | run :: rest =>
      match run with
      | TextRun t => [Content offset (length (text t)) (buildContentAttrs t)]
      | TabRun => [Tab offset]
      | ImageRun data width height =>
          if truthy data then [imageLeaf offset data width height] else []
      | BreakRun => []
      | PageBreakRun => []
      | FootnoteRefRun id _ => [Content offset (length id) superscriptAttrs]
      end
      ++ runChildren (offset + length (concat (runText run))) rest
  end.

(** The text of a body paragraph without a page break, of a paragraph of
    a cell and of a cell. *)
Definition paragraphText (p : Paragraph) : jsstring :=
  match flat_map runText (runs p) with
  | [] => [zeroWidthSpace]
  | piece :: pieces => concat (piece :: pieces)
  end.

Definition cellParagraphText (p : Paragraph) : jsstring :=
  match flat_map cellRunText (runs p) with
  | [] => [space]
  | piece :: pieces => concat (piece :: pieces)
  end.

Definition cellText (c : Cell) : jsstring :=
  match paragraphs c with
  | [] => [space]
  | p :: ps => join [newline] (map cellParagraphText (p :: ps))
  end.

(** An image run whose data is not resolved. *)
Definition isUnresolvedImage (run : Run) : bool :=
  match run with
  | ImageRun data _ _ => negb (truthy data)
  | _ => false
  end.

Definition paragraphResolved (p : Paragraph) : Paragraph :=
  withRuns p (filter (fun r => negb (isUnresolvedImage r)) (runs p)).

Definition cellResolved (c : Cell) : Cell :=
  {| paragraphs := map paragraphResolved (paragraphs c);
     colspan := colspan c; vAlign := vAlign c; bgColor := bgColor c;
     vMergeContinue := vMergeContinue c; vMergeStart := vMergeStart c |}.

End FurtherNotions.

(** Splitting a hypothesis [forallb f (x :: xs) = true]. *)
Ltac split_forallb H H1 H2 :=
  simpl in H; apply andb_true_iff in H; destruct H as [H1 H2].

(** Linear arithmetic with quotients and rests by constants. *)
Ltac divmod_lia :=
  zify; Z.quot_rem_to_equations; Z.div_mod_to_equations; lia.

(** * Properties *)

Unset Implicit Arguments.

(** ** Color conversion *)

Lemma wrap32_small (z : Z) :
  (- 2 ^ 31 <= z < 2 ^ 31)%Z -> wrap32 z = z.
Proof.
  intros H. unfold wrap32. rewrite Z.mod_small; lia.
Qed.

(** Below bit [k] of a multiple of [2 ^ k] there is room for [lo]: the
    bitwise or is the sum. *)
Lemma lor_shifted_low (hi lo k : Z) :
  (0 <= k)%Z -> (0 <= lo < 2 ^ k)%Z ->
  Z.lor (hi * 2 ^ k) lo = (hi * 2 ^ k + lo)%Z.
Proof.
  intros Hk Hlo.
  assert (Hland : Z.land (hi * 2 ^ k) lo = 0%Z).
  { apply Z.bits_inj'. intros n Hn.
    rewrite Z.land_spec, Z.bits_0.
    destruct (Z.lt_ge_cases n k) as [Hlt | Hge].
    - rewrite Z.mul_pow2_bits_low by lia. reflexivity.
    - destruct (Z.eq_dec lo 0) as [-> | Hnz].
      + rewrite Z.bits_0. apply andb_false_r.
      + rewrite (Z.bits_above_log2 lo n).
        * apply andb_false_r.
        * lia.
        * apply Z.log2_lt_pow2; try lia.
          apply Z.lt_le_trans with (2 ^ k)%Z; try lia.
          apply Z.pow_le_mono_r; lia. }
  rewrite <- Z.lxor_lor by exact Hland.
  symmetry. apply Z.add_nocarry_lxor. exact Hland.
Qed.

Lemma hexDigit_range (c : N) (d : Z) :
  hexDigit c = Some d -> (0 <= d < 16)%Z.
Proof.
  unfold hexDigit.
  destruct (N.leb 48 c && N.leb c 57)%N eqn:E1.
  - apply andb_true_iff in E1. destruct E1 as [A B].
    apply N.leb_le in A, B. intros [= <-]. lia.
  - destruct (N.leb 97 c && N.leb c 102)%N eqn:E2.
    + apply andb_true_iff in E2. destruct E2 as [A B].
      apply N.leb_le in A, B. intros [= <-]. lia.
    + destruct (N.leb 65 c && N.leb c 70)%N eqn:E3.
      * apply andb_true_iff in E3. destruct E3 as [A B].
        apply N.leb_le in A, B. intros [= <-]. lia.
      * discriminate.
Qed.

Lemma hexDigit_chars (c : N) (d : Z) : hexDigit c = Some d -> In c hexChars.
Proof.
  unfold hexDigit, hexChars. intros H.
  rewrite <- (N2Nat.id c). apply in_map.
  rewrite !in_app_iff, !in_seq.
  destruct (N.leb 48 c && N.leb c 57)%N eqn:E1.
  - apply andb_true_iff in E1. destruct E1 as [A B].
    apply N.leb_le in A, B. lia.
  - destruct (N.leb 97 c && N.leb c 102)%N eqn:E2.
    + apply andb_true_iff in E2. destruct E2 as [A B].
      apply N.leb_le in A, B. lia.
    + destruct (N.leb 65 c && N.leb c 70)%N eqn:E3.
      * apply andb_true_iff in E3. destruct E3 as [A B].
        apply N.leb_le in A, B. lia.
      * discriminate.
Qed.

Lemma optZ_eqb_eq (a b : option Z) : optZ_eqb a b = true -> a = b.
Proof.
  destruct a, b; simpl; try discriminate; try reflexivity.
  intros H. apply Z.eqb_eq in H. now subst.
Qed.

(** Two hexadecimal digits parse to the byte they spell. *)
Lemma parseInt16_byte (c1 c2 : N) (d1 d2 : Z) :
  hexDigit c1 = Some d1 -> hexDigit c2 = Some d2 ->
  parseInt16 [c1; c2] = Some (16 * d1 + d2)%Z.
Proof.
  intros H1 H2.
  assert (Hall :
    forallb (fun x =>
      forallb (fun y =>
        optZ_eqb (parseInt16 [x; y])
          (match hexDigit x, hexDigit y with
           | Some a, Some b => Some (16 * a + b)%Z
           | _, _ => None
           end)) hexChars) hexChars = true) by (vm_compute; reflexivity).
  rewrite forallb_forall in Hall.
  specialize (Hall c1 (hexDigit_chars _ _ H1)).
  rewrite forallb_forall in Hall.
  specialize (Hall c2 (hexDigit_chars _ _ H2)).
  apply optZ_eqb_eq in Hall. rewrite Hall, H1, H2. reflexivity.
Qed.

(** The int32 steps of the source agree with the formula on integers. *)
Lemma rgb_formula (r g b : Z) :
  (0 <= r < 256)%Z -> (0 <= g < 256)%Z -> (0 <= b < 256)%Z ->
  or32 (or32 (or32 (or32 (shl32 255 24) (shl32 (wrap32 r) 16))
                   (shl32 (wrap32 g) 8))
             (wrap32 b)) 0
  = (r * 65536 + g * 256 + b - 16777216)%Z
  /\ wrap32 (Z.lor (Z.lor (Z.lor (Z.shiftl 255 24) (Z.shiftl r 16))
                          (Z.shiftl g 8)) b)
     = (r * 65536 + g * 256 + b - 16777216)%Z.
Proof.
  intros Hr Hg Hb.
  assert (P24 : (2 ^ 24 = 16777216)%Z) by reflexivity.
  assert (P16 : (2 ^ 16 = 65536)%Z) by reflexivity.
  assert (P8 : (2 ^ 8 = 256)%Z) by reflexivity.
  assert (P31 : (2 ^ 31 = 2147483648)%Z) by reflexivity.
  assert (Small : forall z, (- 2147483648 <= z < 2147483648)%Z -> wrap32 z = z).
  { intros z Hz. apply wrap32_small. rewrite P31. exact Hz. }
  assert (Low24 : forall hi lo, (0 <= lo < 16777216)%Z ->
            Z.lor (hi * 16777216) lo = (hi * 16777216 + lo)%Z).
  { intros hi lo H. rewrite <- P24. apply lor_shifted_low; rewrite ?P24; lia. }
  assert (Low16 : forall hi lo, (0 <= lo < 65536)%Z ->
            Z.lor (hi * 65536) lo = (hi * 65536 + lo)%Z).
  { intros hi lo H. rewrite <- P16. apply lor_shifted_low; rewrite ?P16; lia. }
  assert (Low8 : forall hi lo, (0 <= lo < 256)%Z ->
            Z.lor (hi * 256) lo = (hi * 256 + lo)%Z).
  { intros hi lo H. rewrite <- P8. apply lor_shifted_low; rewrite ?P8; lia. }
  split.
  - unfold or32, shl32.
    rewrite !(Small r), !(Small g), !(Small b) by lia.
    change (24 mod 32)%Z with 24%Z. change (16 mod 32)%Z with 16%Z.
    change (8 mod 32)%Z with 8%Z.
    change (wrap32 (Z.shiftl 255 24)) with (-1 * 16777216)%Z.
    rewrite !Z.shiftl_mul_pow2 by lia. rewrite P16, P8.
    rewrite (Small (r * 65536)%Z), (Small (g * 256)%Z) by lia.
    rewrite (Low24 (-1) (r * 65536))%Z by lia.
    rewrite (Small (-1 * 16777216 + r * 65536)%Z) by lia.
    replace (-1 * 16777216 + r * 65536)%Z with ((r - 256) * 65536)%Z by lia.
    rewrite (Low16 (r - 256) (g * 256))%Z by lia.
    rewrite (Small ((r - 256) * 65536 + g * 256)%Z) by lia.
    replace ((r - 256) * 65536 + g * 256)%Z
      with (((r - 256) * 256 + g) * 256)%Z by lia.
    rewrite (Low8 ((r - 256) * 256 + g) b)%Z by lia.
    rewrite (Small (((r - 256) * 256 + g) * 256 + b)%Z) by lia.
    rewrite Z.lor_0_r. rewrite Small by lia. lia.
  - rewrite !Z.shiftl_mul_pow2 by lia. rewrite P24, P16, P8.
    rewrite (Low24 255 (r * 65536))%Z by lia.
    replace (255 * 16777216 + r * 65536)%Z with ((255 * 256 + r) * 65536)%Z
      by lia.
    rewrite (Low16 (255 * 256 + r) (g * 256))%Z by lia.
    replace ((255 * 256 + r) * 65536 + g * 256)%Z
      with (((255 * 256 + r) * 256 + g) * 256)%Z by lia.
    rewrite (Low8 ((255 * 256 + r) * 256 + g) b)%Z by lia.
    unfold wrap32.
    change (2 ^ 32)%Z with 4294967296%Z. rewrite P31.
    replace ((((255 * 256 + r) * 256 + g) * 256 + b + 2147483648))%Z
      with ((r * 65536 + g * 256 + b - 16777216 + 2147483648)
            + 1 * 4294967296)%Z by lia.
    rewrite Z.mod_add by lia.
    rewrite Z.mod_small; lia.
Qed.

(** C5: [hexToRgbInt] maps [#FF0000] to -65536 and an absent color to
    -16777216; on every [#RRGGBB] it returns
    [(0xFF<<24)|(R<<16)|(G<<8)|B] read as a signed 32-bit integer. *)
Theorem hexToRgbInt_argb :
  hexToRgbInt (Some (lit "#FF0000")) = (-65536)%Z
  /\ hexToRgbInt None = (-16777216)%Z
  /\ forall c1 c2 c3 c4 c5 c6 d1 d2 d3 d4 d5 d6,
      hexDigit c1 = Some d1 -> hexDigit c2 = Some d2 ->
      hexDigit c3 = Some d3 -> hexDigit c4 = Some d4 ->
      hexDigit c5 = Some d5 -> hexDigit c6 = Some d6 ->
      let R := (16 * d1 + d2)%Z in
      let G := (16 * d3 + d4)%Z in
      let B := (16 * d5 + d6)%Z in
      hexToRgbInt (Some [35%N; c1; c2; c3; c4; c5; c6])
      = wrap32 (Z.lor (Z.lor (Z.lor (Z.shiftl 255 24) (Z.shiftl R 16))
                             (Z.shiftl G 8)) B).
Proof.
  split; [vm_compute; reflexivity |].
  split; [reflexivity |].
  intros c1 c2 c3 c4 c5 c6 d1 d2 d3 d4 d5 d6 H1 H2 H3 H4 H5 H6 R G B.
  pose proof (hexDigit_range _ _ H1). pose proof (hexDigit_range _ _ H2).
  pose proof (hexDigit_range _ _ H3). pose proof (hexDigit_range _ _ H4).
  pose proof (hexDigit_range _ _ H5). pose proof (hexDigit_range _ _ H6).
  unfold hexToRgbInt. cbn [truthy negb unwrap removeFirst].
  rewrite N.eqb_refl.
  change (substring 0 2 [c1; c2; c3; c4; c5; c6]) with [c1; c2].
  change (substring 2 4 [c1; c2; c3; c4; c5; c6]) with [c3; c4].
  change (substring 4 6 [c1; c2; c3; c4; c5; c6]) with [c5; c6].
  rewrite (parseInt16_byte _ _ _ _ H1 H2), (parseInt16_byte _ _ _ _ H3 H4),
    (parseInt16_byte _ _ _ _ H5 H6).
  cbn [toInt32]. fold R G B.
  destruct (rgb_formula R G B) as [E1 E2];
    [subst R; lia | subst G; lia | subst B; lia |].
  rewrite E1, E2. reflexivity.
Qed.

(** The conversion of [#FF0000] is an instance of the formula. *)
Lemma hexToRgbInt_argb_red :
  hexToRgbInt (Some (lit "#FF0000"))
  = wrap32 (Z.lor (Z.lor (Z.lor (Z.shiftl 255 24) (Z.shiftl 255 16))
                         (Z.shiftl 0 8)) 0).
Proof.
  exact (proj2 (proj2 hexToRgbInt_argb) 70%N 70%N 48%N 48%N 48%N 48%N
               15%Z 15%Z 0%Z 0%Z 0%Z 0%Z
               eq_refl eq_refl eq_refl eq_refl eq_refl eq_refl).
Defined.

(** ** Tilings of the buffer *)

Lemma join_nil (parts : list jsstring) : join [] parts = concat parts.
Proof.
  induction parts as [| p rest IH]; [reflexivity |].
  destruct rest as [| q rest].
  - simpl. now rewrite app_nil_r.
  - change (join [] (p :: q :: rest)) with (p ++ [] ++ join [] (q :: rest)).
    rewrite IH. reflexivity.
Qed.

Lemma tiles_app off ls1 buf1 g1 ls2 buf2 g2 :
  Tiles off ls1 buf1 g1 ->
  Tiles (off + length buf1) ls2 buf2 g2 ->
  Tiles off (ls1 ++ ls2) (buf1 ++ buf2) (g1 + g2).
Proof.
  intros H. revert ls2 buf2 g2.
  induction H as [off | off ls buf g H IH | off l ls seg buf g Hs Hl H IH];
    intros ls2 buf2 g2 H2.
  - simpl in *. now rewrite Nat.add_0_r in H2.
  - simpl. apply tiles_newline. apply IH.
    simpl in H2. now rewrite Nat.add_succ_r in H2.
  - rewrite <- app_assoc. simpl. apply tiles_leaf; trivial.
    apply IH. rewrite length_app in H2. rewrite Hl in H2.
    now rewrite Nat.add_assoc in H2.
Qed.

Lemma tiles_one off l seg :
  leafStart l = off -> length seg = leafLength l -> Tiles off [l] seg 0.
Proof.
  intros Hs Hl. rewrite <- (app_nil_r seg).
  apply tiles_leaf; trivial. constructor.
Qed.

Lemma tiles_gap off : Tiles off [] [newline] 1.
Proof. apply tiles_newline. constructor. Qed.

Lemma tiles_length off ls buf g :
  Tiles off ls buf g -> length buf = sumLengths ls + g.
Proof.
  induction 1 as [off | off ls buf g H IH | off l ls seg buf g Hs Hl H IH];
    simpl.
  - reflexivity.
  - rewrite IH. lia.
  - rewrite length_app, IH, Hl. lia.
Qed.

Lemma tiles_ordered off ls buf g :
  Tiles off ls buf g -> Ordered off ls (off + length buf).
Proof.
  induction 1 as [off | off ls buf g H IH | off l ls seg buf g Hs Hl H IH].
  - simpl. lia.
  - simpl length. rewrite Nat.add_succ_r.
    destruct ls as [| l rest]; simpl in *; [lia |].
    destruct IH as [A B]. split; [lia | exact B].
  - simpl. split; [lia |]. rewrite Hs.
    rewrite length_app, Hl, Nat.add_assoc. exact IH.
Qed.

Lemma ordered_within off ls bound :
  Ordered off ls bound ->
  Forall (fun l => off <= leafStart l
                   /\ leafStart l + leafLength l <= bound) ls.
Proof.
  revert off. induction ls as [| l rest IH]; intros off H; [constructor |].
  destruct H as [A B]. specialize (IH _ B).
  assert (C : leafStart l + leafLength l <= bound).
  { destruct rest as [| l2 rest]; simpl in B; [exact B |].
    inversion IH; subst. lia. }
  constructor; [lia |].
  eapply Forall_impl; [| exact IH]. simpl. intros x [X Y]. lia.
Qed.

(** ** What a piece of the serializer adds *)

Lemma extends_refl st : Extends st st [] 0.
Proof.
  exists []. rewrite app_nil_r, Nat.add_0_r. repeat split. constructor.
Qed.

Lemma extends_trans st1 st2 st3 ls1 g1 ls2 g2 :
  Extends st1 st2 ls1 g1 -> Extends st2 st3 ls2 g2 ->
  Extends st1 st3 (ls1 ++ ls2) (g1 + g2).
Proof.
  intros (a1 & C1 & O1 & T1) (a2 & C2 & O2 & T2).
  exists (a1 ++ a2). rewrite C2, C1, O2, O1, length_app, app_assoc.
  repeat split; [lia |].
  apply tiles_app; trivial. now rewrite <- O1.
Qed.

Lemma extends_emit st l seg :
  leafStart l = currentOffset st -> length seg = leafLength l ->
  Extends st (advance (length seg) (appendContent seg st)) [l] 0.
Proof.
  intros Hs Hl. exists seg. simpl. repeat split. now apply tiles_one.
Qed.

Lemma extends_newline st :
  Extends st (advance 1 (appendContent [newline] st)) [] 1.
Proof.
  exists [newline]. simpl. repeat split. apply tiles_gap.
Qed.

Lemma extends_synced st st' ls g :
  synced st -> Extends st st' ls g -> synced st'.
Proof.
  unfold synced. intros S (a & C & O & _). rewrite C, O, length_app. lia.
Qed.

(** Pushing an element or a footnote, or clearing the footnotes, leaves
    buffer and cursor alone. *)
Lemma extends_same st st' st'' ls g :
  content st'' = content st' -> currentOffset st'' = currentOffset st' ->
  Extends st st' ls g -> Extends st st'' ls g.
Proof.
  intros C O (a & C1 & O1 & T). exists a. rewrite C, O. auto.
Qed.

(** ** The footnote section *)

Lemma appendFootnotes_fold fs st :
  fold_left appendFootnote fs st
  = {| content := content st ++ footnoteLines fs;
       elements := elements st ++ footnoteParagraphs (currentOffset st) fs;
       currentOffset := currentOffset st + length (footnoteLines fs);
       collectedFootnotes := collectedFootnotes st |}.
Proof.
  revert st. induction fs as [| f rest IH]; intros st.
  - destruct st. simpl. now rewrite !app_nil_r, Nat.add_0_r.
  - simpl fold_left. rewrite IH. destruct st as [c e o p]. simpl.
    f_equal.
    + now rewrite <- !app_assoc.
    + now rewrite <- !app_assoc.
    + rewrite !length_app. simpl. lia.
Qed.

Lemma appendFootnotesSection_spec st :
  appendFootnotesSection st
  = {| content := content st ++ footnoteSectionText (collectedFootnotes st);
       elements :=
         elements st
         ++ footnoteSectionElements (currentOffset st) (collectedFootnotes st);
       currentOffset :=
         currentOffset st
         + length (footnoteSectionText (collectedFootnotes st));
       collectedFootnotes := collectedFootnotes st |}.
Proof.
  unfold appendFootnotesSection. rewrite appendFootnotes_fold.
  destruct st as [c e o p]. simpl.
  unfold footnoteSectionText, footnoteSectionElements. f_equal.
  - now rewrite <- !app_assoc.
  - rewrite <- !app_assoc. simpl.
    replace (o + 1 + 20) with (o + 21) by lia. reflexivity.
  - rewrite ?length_app. simpl. lia.
Qed.

Lemma footnoteParagraphs_tiles off fs :
  Tiles off (leaves (footnoteParagraphs off fs)) (footnoteLines fs) (length fs).
Proof.
  revert off. induction fs as [| f rest IH]; intros off; [constructor |].
  simpl. apply tiles_newline.
  apply tiles_leaf; [simpl; lia | reflexivity |].
  apply tiles_leaf; [simpl; lia | reflexivity |].
  match goal with
  | |- Tiles ?o _ _ _ =>
      replace o
        with (off + 1 + length (fnNumber f ++ lit ". ") + length (fnText f))
        by (simpl; lia)
  end.
  apply IH.
Qed.

Lemma footnoteSection_tiles off fs :
  Tiles off (leaves (footnoteSectionElements off fs)) (footnoteSectionText fs)
        (length fs).
Proof.
  unfold footnoteSectionElements, footnoteSectionText.
  change (Tiles off
    ([Content off 1 defaultContentAttrs;
      Content (off + 1) 20 footnoteTextAttrs]
     ++ leaves (footnoteParagraphs (off + 21) fs))
    (([newline] ++ separator) ++ footnoteLines fs) (0 + length fs)).
  apply tiles_app.
  - apply tiles_leaf with (seg := [newline]); [reflexivity | reflexivity |].
    apply tiles_one; [simpl; lia | reflexivity].
  - replace (off + length ([newline] ++ separator)) with (off + 21)
      by (simpl; lia).
    apply footnoteParagraphs_tiles.
Qed.

Lemma appendFootnotesSection_extends st :
  exists ls,
    leaves (elements (appendFootnotesSection st)) = leaves (elements st) ++ ls
    /\ Extends st (appendFootnotesSection st) ls
               (length (collectedFootnotes st)).
Proof.
  rewrite appendFootnotesSection_spec.
  exists (leaves (footnoteSectionElements (currentOffset st)
                                          (collectedFootnotes st))).
  split.
  - simpl. unfold leaves. now rewrite flat_map_app.
  - exists (footnoteSectionText (collectedFootnotes st)). simpl.
    repeat split. apply footnoteSection_tiles.
Qed.

Lemma adds_refl st : Adds st st [] 0.
Proof. exists 0. split; [apply extends_refl | lia]. Qed.

Lemma adds_trans st1 st2 st3 ls1 n1 ls2 n2 :
  Adds st1 st2 ls1 n1 -> Adds st2 st3 ls2 n2 ->
  Adds st1 st3 (ls1 ++ ls2) (n1 + n2).
Proof.
  intros (g1 & E1 & N1) (g2 & E2 & N2). exists (g1 + g2).
  split; [eapply extends_trans; eassumption | lia].
Qed.

Lemma adds_synced st st' ls n : synced st -> Adds st st' ls n -> synced st'.
Proof. intros S (g & E & _). eapply extends_synced; eassumption. Qed.

(** Pushing an element changes nothing that [Adds] reads. *)
Lemma adds_push st st' ls n e :
  Adds st st' ls n -> Adds st (pushElement e st') ls n.
Proof.
  intros (g & E & N). exists g. split; [| exact N].
  eapply extends_same; [| | exact E]; reflexivity.
Qed.

(** The flush of a page break: the pending footnotes become newlines. *)
Lemma adds_flush st :
  exists ls,
    leaves (elements (clearFootnotes (appendFootnotesSection st)))
    = leaves (elements st) ++ ls
    /\ Adds st (clearFootnotes (appendFootnotesSection st)) ls 0.
Proof.
  destruct (appendFootnotesSection_extends st) as (ls & L & E).
  exists ls. split; [exact L |].
  exists (length (collectedFootnotes st)). split; [| simpl; lia].
  eapply extends_same; [| | exact E]; reflexivity.
Qed.

Section GeneratorFacts.
Context {Num : JsNumber}.

(** *** The loop of [processParagraph] *)

Lemma flushed_collect e s loop :
  flushed (collect e s loop)
  = advance (length s) (appendContent s (flushed loop)).
Proof.
  unfold flushed, collect, advance, appendContent.
  destruct loop as [pc pe [c els o fs]]. simpl.
  rewrite !join_nil, concat_app. simpl.
  now rewrite app_nil_r, app_assoc.
Qed.

Lemma currentOffset_flushed loop :
  currentOffset (flushed loop) = currentOffset (self loop).
Proof. reflexivity. Qed.

Lemma collectedFootnotes_flushed loop :
  collectedFootnotes (flushed loop) = collectedFootnotes (self loop).
Proof. reflexivity. Qed.

Lemma adds_collect e s loop :
  leafStart e = currentOffset (self loop) -> length s = leafLength e ->
  Adds (flushed loop) (flushed (collect e s loop)) [e] 0.
Proof.
  intros Hs Hl. rewrite flushed_collect. exists 0.
  split; [now apply extends_emit | simpl; lia].
Qed.

(** One run that is no page break: the elements and the footnotes it
    adds, and its newline when it is a line break or a reference. *)
Lemma collectRun_step run loop :
  isPageBreak run = false ->
  elements (self (collectRun run loop)) = elements (self loop)
  /\ collectedFootnotes (self (collectRun run loop))
     = collectedFootnotes (self loop) ++ footnoteOf run
  /\ exists ls,
      paraElements (collectRun run loop) = paraElements loop ++ ls
      /\ Adds (flushed loop) (flushed (collectRun run loop)) ls
              (gapRuns [run]).
Proof.
  intros NP. destruct run as [t | | data w h | | | id body];
    try discriminate; simpl collectRun.
  - repeat split; [simpl; now rewrite app_nil_r |].
    eexists. split; [reflexivity |]. now apply adds_collect.
  - repeat split; [simpl; now rewrite app_nil_r |].
    eexists. split; [reflexivity |]. now apply adds_collect.
  - destruct (truthy data).
    + repeat split; [simpl; now rewrite app_nil_r |].
      eexists. split; [reflexivity |]. now apply adds_collect.
    + repeat split; [simpl; now rewrite app_nil_r |].
      exists []. split; [now rewrite app_nil_r | apply adds_refl].
  - repeat split; [simpl; now rewrite app_nil_r |].
    exists []. split; [simpl; now rewrite app_nil_r |].
    exists 1. split; [| unfold flushed, gapRuns; simpl; lia].
    match goal with
    | |- Extends _ ?x _ _ =>
        replace x with (advance 1 (appendContent [newline] (flushed loop)))
    end.
    + apply extends_newline.
    + unfold flushed, advance, appendContent.
      destruct loop as [pc pe [c els o fs]]. simpl.
      rewrite !join_nil, concat_app. simpl.
      now rewrite app_assoc.
  - repeat split.
    eexists. split; [reflexivity |].
    rewrite flushed_collect. exists 0. split.
    + eapply extends_same; [| | apply extends_emit with (st := flushed loop)];
        reflexivity.
    + unfold flushed, gapRuns. simpl. rewrite length_app. simpl. lia.
Qed.

Lemma leaves_push e st :
  leaves (elements (pushElement e st))
  = leaves (elements st) ++ elementLeaves e.
Proof.
  unfold leaves. simpl. rewrite flat_map_app. simpl. now rewrite app_nil_r.
Qed.

Lemma emits_refl st : Emits st st 0.
Proof. exists []. split; [now rewrite app_nil_r | apply adds_refl]. Qed.

Lemma emits_trans st1 st2 st3 n1 n2 :
  Emits st1 st2 n1 -> Emits st2 st3 n2 -> Emits st1 st3 (n1 + n2).
Proof.
  intros (l1 & L1 & A1) (l2 & L2 & A2). exists (l1 ++ l2).
  split; [now rewrite L2, L1, app_assoc |].
  eapply adds_trans; eassumption.
Qed.

Lemma gapRuns_cons run rs : gapRuns (run :: rs) = gapRuns [run] + gapRuns rs.
Proof.
  unfold gapRuns. simpl.
  destruct (isLineBreak run || isFootnoteRef run); reflexivity.
Qed.

Lemma paragraphRuns_cons paragraph run rest loop :
  isPageBreak run = false ->
  paragraphRuns paragraph (run :: rest) loop
  = paragraphRuns paragraph rest (collectRun run loop).
Proof. now destruct run. Qed.

Lemma beforePageBreak_cons run rest :
  isPageBreak run = false ->
  beforePageBreak (run :: rest) = run :: beforePageBreak rest.
Proof. now destruct run. Qed.

Lemma loopInv_start st : LoopInv st (startLoop st) 0.
Proof.
  split; [reflexivity |]. exists 0. split; [| simpl; lia].
  exists []. simpl. repeat split; [lia | constructor].
Qed.

Lemma loopInv_step st0 loop n run :
  isPageBreak run = false ->
  LoopInv st0 loop n -> LoopInv st0 (collectRun run loop) (n + gapRuns [run]).
Proof.
  intros NP [E A].
  destruct (collectRun_step run loop NP) as (E' & _ & ls & P & A').
  split; [now rewrite E' |]. rewrite P.
  eapply adds_trans; eassumption.
Qed.

Lemma finishParagraph_emits st0 paragraph loop n :
  LoopInv st0 loop n -> Emits st0 (finishParagraph paragraph loop) n.
Proof.
  intros [E A]. unfold finishParagraph.
  set (loop' := match paraContent loop with
                | [] => _
                | _ :: _ => loop
                end).
  assert (I : LoopInv st0 loop' n).
  { subst loop'. destruct (paraContent loop).
    - split; [exact E |]. rewrite <- (Nat.add_0_r n).
      eapply adds_trans; [exact A |]. now apply adds_collect.
    - now split. }
  destruct I as [E' A'].
  exists (paraElements loop'). split.
  - rewrite leaves_push. simpl. now rewrite E'.
  - apply adds_push. exact A'.
Qed.

Lemma flushCollected_emits st0 paragraph loop n :
  LoopInv st0 loop n ->
  leaves (elements (flushCollected paragraph loop))
  = leaves (elements st0) ++ paraElements loop
  /\ Adds st0 (flushCollected paragraph loop) (paraElements loop) n.
Proof.
  intros [E A]. unfold flushCollected.
  destruct (paraElements loop) as [| l pe] eqn:P.
  - split; [simpl; now rewrite E, app_nil_r | exact A].
  - split; [rewrite leaves_push; simpl; now rewrite E |].
    now apply adds_push.
Qed.

Lemma pageBreak_emits st0 paragraph loop n :
  LoopInv st0 loop n ->
  Emits st0 (pageBreak paragraph loop) n
  /\ collectedFootnotes (pageBreak paragraph loop) = [].
Proof.
  intros I. destruct (flushCollected_emits st0 paragraph loop n I) as [L A].
  unfold pageBreak.
  destruct (collectedFootnotes (flushCollected paragraph loop)) eqn:F.
  - split; [| exact F].
    exists (paraElements loop). split.
    + rewrite leaves_push. simpl. now rewrite app_nil_r.
    + now apply adds_push.
  - split; [| reflexivity].
    destruct (adds_flush (flushCollected paragraph loop)) as (ls & L' & A').
    exists (paraElements loop ++ ls). split.
    + rewrite leaves_push, L', L. simpl. now rewrite app_nil_r, app_assoc.
    + apply adds_push. rewrite <- (Nat.add_0_r n).
      eapply adds_trans; eassumption.
Qed.

Lemma paragraphRuns_emits st0 paragraph rs :
  forall loop n,
    LoopInv st0 loop n ->
    Emits st0 (paragraphRuns paragraph rs loop)
          (n + gapRuns (beforePageBreak rs)).
Proof.
  induction rs as [| run rest IH]; intros loop n I.
  - simpl. rewrite Nat.add_0_r. now apply finishParagraph_emits.
  - destruct (isPageBreak run) eqn:PB.
    + destruct run; try discriminate. simpl. rewrite Nat.add_0_r.
      now apply pageBreak_emits.
    + rewrite paragraphRuns_cons, beforePageBreak_cons by exact PB.
      rewrite gapRuns_cons, Nat.add_assoc.
      apply IH. now apply loopInv_step.
Qed.

Lemma processParagraph_emits paragraph st :
  Emits st (processParagraph paragraph st) (paragraphNewlines paragraph).
Proof.
  apply (paragraphRuns_emits st paragraph (runs paragraph) (startLoop st) 0).
  apply loopInv_start.
Qed.

(** *** Tables *)

Lemma adds_cellEmit e s acc :
  leafStart e = currentOffset (snd acc) -> length s = leafLength e ->
  Adds (snd acc) (snd (cellEmit e s acc)) [e] 0.
Proof.
  intros Hs Hl. exists 0. split; [now apply extends_emit | simpl; lia].
Qed.

Lemma adds_then_emit st st1 ls n e s :
  Adds st st1 ls n ->
  leafStart e = currentOffset st1 -> length s = leafLength e ->
  Adds st (advance (length s) (appendContent s st1)) (ls ++ [e]) n.
Proof.
  intros A Hs Hl. rewrite <- (Nat.add_0_r n).
  eapply adds_trans; [exact A |].
  exists 0. split; [now apply extends_emit | simpl; lia].
Qed.

Lemma cellRun_step acc run :
  elements (snd (cellRun acc run)) = elements (snd acc)
  /\ collectedFootnotes (snd (cellRun acc run))
     = collectedFootnotes (snd acc) ++ footnoteOf run
  /\ exists ls,
      fst (cellRun acc run) = fst acc ++ ls
      /\ Adds (snd acc) (snd (cellRun acc run)) ls (refCount [run]).
Proof.
  destruct run as [t | | data w h | | | id body]; simpl cellRun.
  - repeat split; [simpl; now rewrite app_nil_r |].
    eexists. split; [reflexivity |]. now apply adds_cellEmit.
  - repeat split; [simpl; now rewrite app_nil_r |].
    eexists. split; [reflexivity |]. now apply adds_cellEmit.
  - destruct (truthy data).
    + repeat split; [simpl; now rewrite app_nil_r |].
      eexists. split; [reflexivity |]. now apply adds_cellEmit.
    + repeat split; [simpl; now rewrite app_nil_r |].
      exists []. split; [now rewrite app_nil_r | apply adds_refl].
  - repeat split; [simpl; now rewrite app_nil_r |].
    exists []. split; [now rewrite app_nil_r | apply adds_refl].
  - repeat split; [simpl; now rewrite app_nil_r |].
    exists []. split; [now rewrite app_nil_r | apply adds_refl].
  - repeat split.
    eexists. split; [reflexivity |].
    exists 0. split.
    + eapply extends_same; [| | apply extends_emit with (st := snd acc)];
        reflexivity.
    + unfold refCount. simpl. rewrite length_app. simpl. lia.
Qed.

Lemma refCount_cons run rs : refCount (run :: rs) = refCount [run] + refCount rs.
Proof. unfold refCount. simpl. destruct (isFootnoteRef run); reflexivity. Qed.

Lemma cellRuns_adds rs :
  forall acc,
    elements (snd (fold_left cellRun rs acc)) = elements (snd acc)
    /\ exists ls,
        fst (fold_left cellRun rs acc) = fst acc ++ ls
        /\ Adds (snd acc) (snd (fold_left cellRun rs acc)) ls (refCount rs).
Proof.
  induction rs as [| run rest IH]; intros acc.
  - split; [reflexivity |]. exists [].
    split; [now rewrite app_nil_r | apply adds_refl].
  - simpl fold_left.
    destruct (IH (cellRun acc run)) as (E & ls & F & A).
    destruct (cellRun_step acc run) as (E1 & _ & l1 & F1 & A1).
    split; [now rewrite E |]. exists (l1 ++ ls).
    split; [now rewrite F, F1, app_assoc |].
    rewrite refCount_cons. eapply adds_trans; eassumption.
Qed.

Lemma cellParagraph_adds paragraph st :
  elements (snd (cellParagraph paragraph st)) = elements st
  /\ Adds st (snd (cellParagraph paragraph st))
          (pChildren (fst (cellParagraph paragraph st)))
          (refCount (runs paragraph)).
Proof.
  unfold cellParagraph.
  destruct (cellRuns_adds (runs paragraph) ([], st)) as (E & ls & F & A).
  simpl in E, F, A. rewrite F.
  destruct ls as [| l ls].
  - simpl. split; [exact E |].
    apply (adds_then_emit st _ [] _ _ [space] A); reflexivity.
  - simpl. rewrite F. split; [exact E | exact A].
Qed.

Lemma cellParagraphs_cons p rest cellElements st :
  cellParagraphs (p :: rest) cellElements st
  = cellParagraphs rest (cellElements ++ [fst (cellParagraph p st)])
      (match rest with
       | [] => snd (cellParagraph p st)
       | _ :: _ => advance 1 (appendContent [newline] (snd (cellParagraph p st)))
       end).
Proof.
  cbn [cellParagraphs]. now destruct (cellParagraph p st).
Qed.

Lemma cellParagraphs_adds ps :
  forall cellElements st,
    elements (snd (cellParagraphs ps cellElements st)) = elements st
    /\ exists new,
        fst (cellParagraphs ps cellElements st) = cellElements ++ new
        /\ length new = length ps
        /\ Adds st (snd (cellParagraphs ps cellElements st))
                (paragraphLeaves new)
                ((length ps - 1) + cellRefCount ps).
Proof.
  induction ps as [| p rest IH]; intros cellElements st.
  - split; [reflexivity |]. exists [].
    split; [now rewrite app_nil_r |]. split; [reflexivity |].
    apply adds_refl.
  - rewrite cellParagraphs_cons.
    destruct (cellParagraph_adds p st) as [E1 A1].
    destruct (cellParagraph p st) as [el st1]. simpl fst in *. simpl snd in *.
    set (st2 := match rest with
                | [] => st1
                | _ :: _ => advance 1 (appendContent [newline] st1)
                end).
    assert (A2 : Adds st1 st2 [] (match rest with [] => 0 | _ :: _ => 1 end)
                 /\ elements st2 = elements st1).
    { subst st2. destruct rest; simpl.
      - split; [apply adds_refl | reflexivity].
      - split; [| reflexivity].
        exists 1. split; [apply extends_newline | simpl; lia]. }
    destruct A2 as [A2 E2].
    destruct (IH (cellElements ++ [el]) st2) as (E3 & new & F & Len & A3).
    split; [now rewrite E3, E2 |].
    exists (el :: new). split; [now rewrite F, <- app_assoc |].
    split; [simpl; now rewrite Len |].
    assert (A : Adds st (snd (cellParagraphs rest (cellElements ++ [el]) st2))
                     ((pChildren el ++ []) ++ paragraphLeaves new)
                     ((refCount (runs p)
                       + match rest with [] => 0 | _ :: _ => 1 end)
                      + ((length rest - 1) + cellRefCount rest))).
    { eapply adds_trans; [| exact A3].
      eapply adds_trans; eassumption. }
    rewrite app_nil_r in A.
    replace (length (p :: rest) - 1 + cellRefCount (p :: rest))
      with (refCount (runs p) + match rest with [] => 0 | _ :: _ => 1 end
            + (length rest - 1 + cellRefCount rest)).
    + exact A.
    + unfold cellRefCount, refCount. simpl. rewrite length_app.
      destruct rest; simpl; lia.
Qed.

Lemma cellNewlines_eq cell :
  cellNewlines cell
  = (length (paragraphs cell) - 1) + cellRefCount (paragraphs cell).
Proof. reflexivity. Qed.

Lemma processTableCell_adds cell st :
  elements (snd (processTableCell cell st)) = elements st
  /\ Adds st (snd (processTableCell cell st))
          (paragraphLeaves (fst (processTableCell cell st)))
          (cellNewlines cell).
Proof.
  unfold processTableCell. rewrite cellNewlines_eq.
  destruct (cellParagraphs_adds (paragraphs cell) [] st)
    as (E & new & F & Len & A).
  destruct (cellParagraphs (paragraphs cell) [] st) as [els st1].
  simpl in E, F, A. subst els.
  destruct new as [| el new].
  - simpl. split; [exact E |].
    destruct (paragraphs cell); [| discriminate].
    apply (adds_then_emit st _ [] _ _ [space] A); reflexivity.
  - simpl. split; [exact E | exact A].
Qed.

Lemma rowCellsLoop_adds cs :
  forall cellElements st,
    elements (snd (rowCellsLoop cs cellElements st)) = elements st
    /\ exists new,
        fst (rowCellsLoop cs cellElements st) = cellElements ++ new
        /\ Adds st (snd (rowCellsLoop cs cellElements st)) (cellLeaves new)
                (rowNewlines cs).
Proof.
  induction cs as [| cell rest IH]; intros cellElements st.
  - split; [reflexivity |]. exists [].
    split; [now rewrite app_nil_r | apply adds_refl].
  - cbn [rowCellsLoop]. unfold rowNewlines. cbn [filter].
    destruct (vMergeContinue cell); cbn [negb].
    + apply IH.
    + destruct (processTableCell_adds cell st) as [E1 A1].
      destruct (processTableCell cell st) as [cc st1]. simpl in E1, A1.
      destruct (IH (cellElements
                      ++ [{| cellAttrs := buildCellAttrs cell;
                             cellContent := cc |}]) st1)
        as (E2 & new & F & A2).
      split; [now rewrite E2 |].
      exists ({| cellAttrs := buildCellAttrs cell; cellContent := cc |}
                :: new).
      split; [now rewrite F, <- app_assoc |].
      simpl. eapply adds_trans; eassumption.
Qed.

Lemma tableRowsLoop_adds rs :
  forall i rowElements st,
    elements (snd (tableRowsLoop rs i rowElements st)) = elements st
    /\ exists new,
        fst (tableRowsLoop rs i rowElements st) = rowElements ++ new
        /\ Adds st (snd (tableRowsLoop rs i rowElements st)) (rowLeaves new)
                (rowsNewlines rs).
Proof.
  induction rs as [| row rest IH]; intros i rowElements st.
  - split; [reflexivity |]. exists [].
    split; [now rewrite app_nil_r | apply adds_refl].
  - cbn [tableRowsLoop].
    destruct (rowCellsLoop_adds (cells row) [] st) as (E1 & new1 & F1 & A1).
    destruct (rowCellsLoop (cells row) [] st) as [ce st1].
    simpl in E1, F1, A1. subst ce.
    destruct (IH (S i)
                 (rowElements ++ [{| rowNumber := i + 1; rowCells := new1 |}])
                 st1) as (E2 & new & F & A2).
    split; [now rewrite E2 |].
    exists ({| rowNumber := i + 1; rowCells := new1 |} :: new).
    split; [now rewrite F, <- app_assoc |].
    simpl. eapply adds_trans; eassumption.
Qed.

Lemma processTable_emits table st :
  Emits st (processTable table st) (tableNewlines table).
Proof.
  unfold processTable.
  destruct (tableRowsLoop_adds (rows table) 0 [] st) as (E & new & F & A).
  destruct (tableRowsLoop (rows table) 0 [] st) as [re st1].
  simpl in E, F, A. subst re.
  exists (rowLeaves new). split.
  - rewrite leaves_push. simpl. now rewrite E.
  - apply adds_push. exact A.
Qed.

(** *** Blocks *)

Lemma processElement_emits st element :
  Emits st (processElement st element) (blockNewlines element).
Proof.
  destruct element; simpl.
  - apply processParagraph_emits.
  - apply processTable_emits.
Qed.

Lemma processElements_emits blocks :
  forall st,
    Emits st (processElements blocks st) (list_sum (map blockNewlines blocks)).
Proof.
  induction blocks as [| b rest IH]; intros st.
  - apply emits_refl.
  - simpl. eapply emits_trans; [apply processElement_emits | apply IH].
Qed.

(** *** The whole document *)

Lemma emits_from_initial st n :
  Emits initialState st n ->
  synced st
  /\ exists g,
      Tiles 0 (leaves (elements st)) (content st) g
      /\ g + length (collectedFootnotes st) = n.
Proof.
  intros (ls & L & g & (added & C & O & T) & N). simpl in *.
  split; [unfold synced; now rewrite C, O |].
  exists g. rewrite L, C. split; [exact T | exact N].
Qed.

Lemma flushAtEnd_tiles st n :
  Emits initialState st n ->
  synced (flushAtEnd st)
  /\ Tiles 0 (leaves (elements (flushAtEnd st))) (content (flushAtEnd st)) n.
Proof.
  intros E. destruct (emits_from_initial st n E) as (S & g & T & N).
  unfold flushAtEnd. destruct (collectedFootnotes st) as [| f fs] eqn:P.
  - simpl in N. rewrite Nat.add_0_r in N. subst g. now split.
  - destruct (appendFootnotesSection_extends st) as (ls & L & X).
    split; [eapply extends_synced; eassumption |].
    destruct X as (added & C & O & T'). rewrite L, C, <- N.
    apply tiles_app; [exact T |]. rewrite P in T'.
    simpl. unfold synced in S. now rewrite S.
Qed.

Lemma ensureContent_tiles st n :
  Tiles 0 (leaves (elements st)) (content st) n ->
  Tiles 0 (leaves (elements (ensureContent st))) (content (ensureContent st)) n.
Proof.
  intros T. unfold ensureContent. destruct (content st) eqn:C; [| now rewrite C].
  rewrite leaves_push. simpl.
  rewrite <- (Nat.add_0_r n).
  change [zeroWidthSpace] with ([] ++ [zeroWidthSpace]).
  apply tiles_app; [exact T |]. now apply tiles_one.
Qed.

Lemma serialize_tiles document :
  Tiles 0 (leaves (elements (serialize document)))
        (content (serialize document)) (unclaimedNewlines document).
Proof.
  unfold serialize. apply ensureContent_tiles.
  apply flushAtEnd_tiles. apply processElements_emits.
Qed.

(** C1 (amended): the ranges of the emitted content, tab and image
    elements are, in emission order, disjoint and increasing inside the
    final buffer, which they tile but for newline characters: those of
    the processed line-break runs of body paragraphs, those between two
    paragraphs of a rendered cell and those before each flushed footnote.
    The buffer is as long as the lengths of the elements and these
    newlines together. *)
Theorem serialize_tiles_buffer document :
  let st := serialize document in
  Tiles 0 (leaves (elements st)) (content st) (unclaimedNewlines document)
  /\ length (content st)
     = sumLengths (leaves (elements st)) + unclaimedNewlines document
  /\ Ordered 0 (leaves (elements st)) (length (content st)).
Proof.
  intros st. pose proof (serialize_tiles document) as T. fold st in T.
  split; [exact T |]. split.
  - now apply tiles_length with (off := 0).
  - apply (tiles_ordered _ _ _ _ T).
Qed.

(** *** The cursor and the buffer *)

Lemma processElements_synced blocks :
  synced (processElements blocks initialState).
Proof.
  destruct (emits_from_initial _ _ (processElements_emits blocks initialState))
    as [S _].
  exact S.
Qed.

Lemma emits_synced st st' n : synced st -> Emits st st' n -> synced st'.
Proof. intros S (ls & _ & A). eapply adds_synced; eassumption. Qed.

Lemma appendFootnotesSection_synced st :
  synced st -> synced (appendFootnotesSection st).
Proof.
  intros S. destruct (appendFootnotesSection_extends st) as (ls & _ & E).
  eapply extends_synced; eassumption.
Qed.

Lemma paragraphFlushes_synced st0 paragraph rs :
  synced st0 ->
  forall loop n,
    LoopInv st0 loop n ->
    Forall synced (paragraphFlushes paragraph rs loop).
Proof.
  intros S. induction rs as [| run rest IH]; intros loop n I; [constructor |].
  destruct (isPageBreak run) eqn:PB.
  - destruct run; try discriminate. simpl.
    destruct (collectedFootnotes (flushCollected paragraph loop));
      [constructor |].
    constructor; [| constructor].
    apply appendFootnotesSection_synced.
    destruct (flushCollected_emits st0 paragraph loop n I) as [_ A].
    eapply adds_synced; eassumption.
  - replace (paragraphFlushes paragraph (run :: rest) loop)
      with (paragraphFlushes paragraph rest (collectRun run loop))
      by (destruct run; try discriminate; reflexivity).
    apply (IH _ (n + gapRuns [run])). now apply loopInv_step.
Qed.

Lemma elementsFlushes_synced blocks :
  forall st, synced st -> Forall synced (elementsFlushes blocks st).
Proof.
  induction blocks as [| b rest IH]; intros st S; [constructor |].
  simpl. apply Forall_app. split.
  - destruct b; simpl; [| constructor].
    eapply paragraphFlushes_synced; [exact S | apply loopInv_start].
  - apply IH. eapply emits_synced; [exact S | apply processElement_emits].
Qed.

(** The state that [paragraphFlushes] records is the one [pageBreak]
    continues from. *)
Lemma pageBreak_continues paragraph rest loop s :
  paragraphFlushes paragraph (PageBreakRun :: rest) loop = [s] ->
  paragraphRuns paragraph (PageBreakRun :: rest) loop
  = pushElement EPageBreak (clearFootnotes s).
Proof.
  simpl. unfold pageBreak.
  destruct (collectedFootnotes (flushCollected paragraph loop));
    [discriminate |].
  now intros [= <-].
Qed.

(** C10: between two top-level blocks, and after every footnote flush,
    the length of the buffer is the cursor; every content, tab and image
    element ends inside the final buffer. *)
Theorem cursor_is_buffer_length document :
  (forall k,
      synced (processElements (firstn k (docElements document)) initialState))
  /\ Forall synced (flushPoints document)
  /\ Forall (fun l => leafStart l + leafLength l
                      <= length (content (serialize document)))
            (leaves (elements (serialize document))).
Proof.
  split; [intros k; apply processElements_synced |]. split.
  - unfold flushPoints. apply Forall_app. split.
    + apply elementsFlushes_synced. reflexivity.
    + destruct (collectedFootnotes
                  (processElements (docElements document) initialState));
        [constructor |].
      constructor; [| constructor].
      apply appendFootnotesSection_synced. apply processElements_synced.
  - pose proof (serialize_tiles document) as T.
    apply tiles_ordered in T. apply ordered_within in T.
    eapply Forall_impl; [| exact T]. simpl. intros l [_ H]. exact H.
Qed.

(** *** The empty document *)

Lemma ensureContent_nonempty st : content (ensureContent st) <> [].
Proof.
  unfold ensureContent. destruct (content st) eqn:C; simpl.
  - discriminate.
  - rewrite C. discriminate.
Qed.

(** C6: a document without block elements serializes to the buffer of
    one zero-width space and to one paragraph element that holds one
    default-formatted content element of length 1 at offset 0; the final
    buffer of every document is non-empty. *)
Theorem empty_document_placeholder :
  content (serialize {| docElements := [] |}) = [zeroWidthSpace]
  /\ elements (serialize {| docElements := [] |})
     = [EParagraph (defaultParagraph [Content 0 1 defaultContentAttrs])]
  /\ forall document, content (serialize document) <> [].
Proof.
  split; [reflexivity |]. split; [reflexivity |].
  intros document. apply ensureContent_nonempty.
Qed.

(** *** The pending footnotes *)

Lemma collectRuns_self rs :
  forall loop,
    content (self (collectRuns rs loop)) = content (self loop)
    /\ elements (self (collectRuns rs loop)) = elements (self loop)
    /\ collectedFootnotes (self (collectRuns rs loop))
       = collectedFootnotes (self loop) ++ flat_map footnoteOf rs.
Proof.
  induction rs as [| run rest IH]; intros loop.
  - simpl. now rewrite app_nil_r.
  - unfold collectRuns in *. simpl fold_left.
    destruct (IH (collectRun run loop)) as (C & E & F).
    rewrite C, E, F. simpl flat_map. rewrite app_assoc.
    destruct run as [t | | data w h | | | id body]; simpl;
      try (destruct (truthy data)); simpl; rewrite ?app_nil_r; auto.
Qed.

Lemma finishParagraph_pending paragraph loop :
  collectedFootnotes (finishParagraph paragraph loop)
  = collectedFootnotes (self loop).
Proof. unfold finishParagraph. now destruct (paraContent loop). Qed.

Lemma flushCollected_pending paragraph loop :
  collectedFootnotes (flushCollected paragraph loop)
  = collectedFootnotes (self loop).
Proof. unfold flushCollected. now destruct (paraElements loop). Qed.

Lemma pageBreak_pending paragraph loop :
  collectedFootnotes (pageBreak paragraph loop) = [].
Proof.
  unfold pageBreak.
  now destruct (collectedFootnotes (flushCollected paragraph loop)) eqn:F.
Qed.

Lemma paragraphRuns_pending paragraph rs :
  forall loop,
    collectedFootnotes (paragraphRuns paragraph rs loop)
    = paragraphPending rs (collectedFootnotes (self loop)).
Proof.
  induction rs as [| run rest IH]; intros loop.
  - apply finishParagraph_pending.
  - destruct (isPageBreak run) eqn:PB.
    + destruct run; try discriminate. apply pageBreak_pending.
    + destruct (collectRun_step run loop PB) as (_ & F & _).
      rewrite paragraphRuns_cons by exact PB.
      replace (paragraphPending (run :: rest) (collectedFootnotes (self loop)))
        with (paragraphPending rest
                (collectedFootnotes (self loop) ++ footnoteOf run))
        by (destruct run; try discriminate; reflexivity).
      now rewrite IH, F.
Qed.

Lemma cellRuns_pending rs :
  forall acc,
    collectedFootnotes (snd (fold_left cellRun rs acc))
    = collectedFootnotes (snd acc) ++ flat_map footnoteOf rs.
Proof.
  induction rs as [| run rest IH]; intros acc.
  - simpl. now rewrite app_nil_r.
  - simpl fold_left. rewrite IH.
    destruct (cellRun_step acc run) as (_ & F & _).
    rewrite F. simpl flat_map. now rewrite app_assoc.
Qed.

Lemma cellParagraph_pending paragraph st :
  collectedFootnotes (snd (cellParagraph paragraph st))
  = collectedFootnotes st ++ flat_map footnoteOf (runs paragraph).
Proof.
  unfold cellParagraph.
  pose proof (cellRuns_pending (runs paragraph) ([], st)) as F.
  now destruct (fst (fold_left cellRun (runs paragraph) ([], st))).
Qed.

Lemma cellParagraphs_pending ps :
  forall cellElements st,
    collectedFootnotes (snd (cellParagraphs ps cellElements st))
    = collectedFootnotes st
      ++ flat_map (fun p => flat_map footnoteOf (runs p)) ps.
Proof.
  induction ps as [| p rest IH]; intros cellElements st.
  - simpl. now rewrite app_nil_r.
  - rewrite cellParagraphs_cons, IH. simpl flat_map. rewrite app_assoc.
    f_equal. rewrite <- cellParagraph_pending. now destruct rest.
Qed.

Lemma processTableCell_pending cell st :
  collectedFootnotes (snd (processTableCell cell st))
  = collectedFootnotes st ++ cellFootnotes cell.
Proof.
  unfold processTableCell, cellFootnotes.
  pose proof (cellParagraphs_pending (paragraphs cell) [] st) as F.
  destruct (cellParagraphs (paragraphs cell) [] st) as [els st1].
  now destruct els.
Qed.

Lemma rowCellsLoop_pending cs :
  forall cellElements st,
    collectedFootnotes (snd (rowCellsLoop cs cellElements st))
    = collectedFootnotes st
      ++ flat_map cellFootnotes
           (filter (fun c => negb (vMergeContinue c)) cs).
Proof.
  induction cs as [| cell rest IH]; intros cellElements st.
  - simpl. now rewrite app_nil_r.
  - cbn [rowCellsLoop filter].
    destruct (vMergeContinue cell); cbn [negb]; [apply IH |].
    pose proof (processTableCell_pending cell st) as F.
    destruct (processTableCell cell st) as [cc st1].
    rewrite IH. simpl in F. rewrite F. simpl flat_map.
    now rewrite app_assoc.
Qed.

Lemma tableRowsLoop_pending rs :
  forall i rowElements st,
    collectedFootnotes (snd (tableRowsLoop rs i rowElements st))
    = collectedFootnotes st
      ++ flat_map (fun row => flat_map cellFootnotes (renderedCells row)) rs.
Proof.
  induction rs as [| row rest IH]; intros i rowElements st.
  - simpl. now rewrite app_nil_r.
  - cbn [tableRowsLoop].
    pose proof (rowCellsLoop_pending (cells row) [] st) as F.
    destruct (rowCellsLoop (cells row) [] st) as [ce st1].
    rewrite IH. simpl in F. rewrite F. simpl flat_map.
    now rewrite app_assoc.
Qed.

Lemma processElement_pending st element :
  collectedFootnotes (processElement st element)
  = blockPending (collectedFootnotes st) element.
Proof.
  destruct element as [p | t]; simpl.
  - apply paragraphRuns_pending.
  - unfold processTable, tableFootnotes.
    pose proof (tableRowsLoop_pending (rows t) 0 [] st) as F.
    now destruct (tableRowsLoop (rows t) 0 [] st).
Qed.

Lemma processElements_pending blocks :
  forall st,
    collectedFootnotes (processElements blocks st)
    = pendingAfter blocks (collectedFootnotes st).
Proof.
  induction blocks as [| b rest IH]; intros st; [reflexivity |].
  simpl. now rewrite IH, processElement_pending.
Qed.

(** C4: a footnote flush appends, after the text and the elements there
    are, a blank line with its paragraph, the rule of twenty box-drawing
    characters with its paragraph and, in the order of collection, one
    paragraph per pending footnote: a newline, the superscripted label
    followed by a dot and a space, and the body, each with its own range.
    At the end of the document the footnotes collected since the last
    processed page break are flushed, once. *)
Theorem footnote_flush_section :
  (forall st,
      appendFootnotesSection st
      = {| content := content st ++ footnoteSectionText (collectedFootnotes st);
           elements :=
             elements st
             ++ footnoteSectionElements (currentOffset st)
                                        (collectedFootnotes st);
           currentOffset :=
             currentOffset st
             + length (footnoteSectionText (collectedFootnotes st));
           collectedFootnotes := collectedFootnotes st |})
  /\ (forall off fs,
         Tiles off (leaves (footnoteSectionElements off fs))
               (footnoteSectionText fs) (length fs))
  /\ (forall document,
         let st := processElements (docElements document) initialState in
         let fs := pendingAfter (docElements document) [] in
         collectedFootnotes st = fs
         /\ serialize document
            = match fs with
              | [] => ensureContent st
              | _ :: _ =>
                  {| content := content st ++ footnoteSectionText fs;
                     elements :=
                       elements st
                       ++ footnoteSectionElements (currentOffset st) fs;
                     currentOffset :=
                       currentOffset st + length (footnoteSectionText fs);
                     collectedFootnotes := fs |}
              end).
Proof.
  split; [exact appendFootnotesSection_spec |].
  split; [exact footnoteSection_tiles |].
  intros document st fs.
  assert (F : collectedFootnotes st = fs)
    by apply (processElements_pending (docElements document) initialState).
  split; [exact F |].
  unfold serialize, flushAtEnd. fold st. rewrite F.
  destruct fs as [| f fs']; [reflexivity |].
  rewrite appendFootnotesSection_spec, F.
  unfold ensureContent. simpl content.
  destruct (content st); reflexivity.
Qed.

(** *** Page breaks *)

Lemma paragraphRuns_page_break paragraph pre post :
  forallb (fun r => negb (isPageBreak r)) pre = true ->
  forall loop,
    paragraphRuns paragraph (pre ++ PageBreakRun :: post) loop
    = pageBreak paragraph (collectRuns pre loop).
Proof.
  induction pre as [| run rest IH]; intros NP loop; [reflexivity |].
  split_forallb NP N1 N2.
  change (collectRuns (run :: rest) loop)
    with (collectRuns rest (collectRun run loop)).
  rewrite <- (IH N2).
  destruct run; try discriminate; reflexivity.
Qed.

Lemma collectRuns_closed rs :
  forall loop,
    paraContent (collectRuns rs loop) = paraContent loop ++ flat_map runText rs
    /\ paraElements (collectRuns rs loop)
       = paraElements loop ++ runChildren (currentOffset (self loop)) rs
    /\ currentOffset (self (collectRuns rs loop))
       = currentOffset (self loop) + length (concat (flat_map runText rs)).
Proof.
  induction rs as [| run rest IH]; intros loop.
  - simpl. rewrite !app_nil_r. repeat split; lia.
  - change (collectRuns (run :: rest) loop)
      with (collectRuns rest (collectRun run loop)).
    destruct (IH (collectRun run loop)) as (C & E & O).
    rewrite C, E, O. cbn [flat_map runChildren].
    rewrite concat_app, length_app.
    destruct run as [t | | data w h | | | id body]; simpl;
      try (destruct (truthy data)); simpl;
      rewrite ?app_nil_r, ?Nat.add_0_r, <- ?app_assoc; simpl;
      repeat split; lia || reflexivity.
Qed.

Lemma buildParagraphElement_children paragraph children :
  buildParagraphElement paragraph children
  = {| pAttrs := pAttrs (buildParagraphElement paragraph []);
       pChildren := children |}.
Proof. reflexivity. Qed.

Lemma cellRuns_page_break pre post :
  forall acc,
    fold_left cellRun (pre ++ PageBreakRun :: post) acc
    = fold_left cellRun (pre ++ post) acc.
Proof. intros acc. now rewrite !fold_left_app. Qed.

(** C3, amended: in a body paragraph with a page-break run, processing
    ends at the first one. The texts of the runs before it go to the
    buffer; the child elements of these runs, if there is any, form one
    paragraph element, and no paragraph element is pushed if there is none
    (as when only line breaks precede the page break); the pending
    footnotes, those of this paragraph included, are written right before
    the page-break marker and the pending list is empty afterwards; the
    runs after the page break have no effect. In a paragraph of a table
    cell the page-break run is passed over: the paragraph is serialized as
    it is without that run, the runs after it included. *)
Theorem page_break_ends_paragraph paragraph pre post st :
  runs paragraph = pre ++ PageBreakRun :: post ->
  forallb (fun r => negb (isPageBreak r)) pre = true ->
  let written := concat (flat_map runText pre) in
  let children := runChildren (currentOffset st) pre in
  let offset := currentOffset st + length written in
  let fs := collectedFootnotes st ++ flat_map footnoteOf pre in
  processParagraph paragraph st
  = {| content :=
         content st ++ written
         ++ match fs with
            | [] => []
            | _ :: _ => footnoteSectionText fs
            end;
       elements :=
         elements st
         ++ match children with
            | [] => []
            | _ :: _ =>
                [EParagraph
                   {| pAttrs := pAttrs (buildParagraphElement paragraph []);
                      pChildren := children |}]
            end
         ++ match fs with
            | [] => []
            | _ :: _ => footnoteSectionElements offset fs
            end
         ++ [EPageBreak];
       currentOffset :=
         offset
         + match fs with
           | [] => 0
           | _ :: _ => length (footnoteSectionText fs)
           end;
       collectedFootnotes := [] |}
  /\ processParagraph paragraph st
     = processParagraph (withRuns paragraph (pre ++ [PageBreakRun])) st
  /\ cellParagraph paragraph st
     = cellParagraph (withRuns paragraph (pre ++ post)) st.
Proof.
  intros R NP written children offset fs.
  set (loop := collectRuns pre (startLoop st)).
  assert (P : forall tail,
    processParagraph (withRuns paragraph (pre ++ PageBreakRun :: tail)) st
    = pageBreak paragraph loop).
  { intros tail. unfold processParagraph. simpl runs.
    rewrite (paragraphRuns_page_break _ pre tail NP). reflexivity. }
  assert (Q : processParagraph paragraph st = pageBreak paragraph loop).
  { rewrite <- (P post). unfold processParagraph. simpl runs.
    rewrite R, !paragraphRuns_page_break by exact NP. reflexivity. }
  split; [| split; [now rewrite Q, <- (P []) |]].
  - rewrite Q.
    destruct (collectRuns_self pre (startLoop st)) as (C & E & F).
    destruct (collectRuns_closed pre (startLoop st)) as (T & L & O).
    fold loop in C, E, F, T, L, O. simpl in C, E, F, T, L, O.
    fold fs in F. fold written in O. fold offset in O. fold children in L.
    unfold pageBreak.
    rewrite flushCollected_pending, F.
    assert (FC : flushCollected paragraph loop
                 = {| content := content st ++ written;
                      elements :=
                        elements st
                        ++ match children with
                           | [] => []
                           | _ :: _ =>
                               [EParagraph
                                  {| pAttrs :=
                                       pAttrs (buildParagraphElement paragraph []);
                                     pChildren := children |}]
                           end;
                      currentOffset := offset;
                      collectedFootnotes := fs |}).
    { unfold flushCollected, pushElement, appendContent.
      rewrite join_nil, T, L, buildParagraphElement_children.
      fold written.
      destruct children; simpl; rewrite C, E, F, O, ?app_nil_r; reflexivity. }
    destruct fs as [| f fs'] eqn:FS.
    + rewrite FC. unfold pushElement.
      cbn [content elements currentOffset collectedFootnotes app].
      now rewrite !app_nil_r, Nat.add_0_r, <- app_assoc.
    + rewrite appendFootnotesSection_spec, FC.
      unfold pushElement, clearFootnotes.
      cbn [content elements currentOffset collectedFootnotes].
      now rewrite <- !app_assoc.
  - unfold cellParagraph. simpl runs. rewrite R, cellRuns_page_break.
    reflexivity.
Qed.

(** *** Table cells: vertical merges and breaks *)

Lemma rowCellsLoop_rendered cs :
  forall cellElements st,
    rowCellsLoop cs cellElements st
    = rowCellsLoop (filter (fun c => negb (vMergeContinue c)) cs)
                   cellElements st.
Proof.
  induction cs as [| cell rest IH]; intros cellElements st; [reflexivity |].
  cbn [rowCellsLoop filter].
  destruct (vMergeContinue cell) eqn:V; cbn [negb]; [apply IH |].
  cbn [rowCellsLoop]. rewrite V.
  destruct (processTableCell cell st). apply IH.
Qed.

Lemma tableRowsLoop_rendered rs :
  forall i rowElements st,
    tableRowsLoop rs i rowElements st
    = tableRowsLoop (map withoutContinuation rs) i rowElements st.
Proof.
  induction rs as [| row rest IH]; intros i rowElements st; [reflexivity |].
  cbn [tableRowsLoop map]. simpl cells. unfold renderedCells.
  rewrite <- rowCellsLoop_rendered.
  destruct (rowCellsLoop (cells row) [] st). apply IH.
Qed.

(** C7: a continuation cell is skipped: buffer, cursor, collected
    elements and pending footnotes stay as they are, so a row (and a
    table) is serialized as if its continuation cells were not there; a
    cell that is no continuation, a merge start included, is rendered by
    [processTableCell]. *)
Theorem continuation_cell_skipped :
  (forall cell rest cellElements st,
      vMergeContinue cell = true ->
      rowCellsLoop (cell :: rest) cellElements st
      = rowCellsLoop rest cellElements st)
  /\ (forall cs cellElements st,
         rowCellsLoop cs cellElements st
         = rowCellsLoop (filter (fun c => negb (vMergeContinue c)) cs)
                        cellElements st)
  /\ (forall rs i rowElements st,
         tableRowsLoop rs i rowElements st
         = tableRowsLoop (map withoutContinuation rs) i rowElements st)
  /\ (forall cell rest cellElements st,
         vMergeContinue cell = false ->
         rowCellsLoop (cell :: rest) cellElements st
         = rowCellsLoop rest
             (cellElements
                ++ [{| cellAttrs := buildCellAttrs cell;
                       cellContent := fst (processTableCell cell st) |}])
             (snd (processTableCell cell st))).
Proof.
  split; [| split; [| split]].
  - intros cell rest cellElements st V. cbn [rowCellsLoop]. now rewrite V.
  - intros. apply rowCellsLoop_rendered.
  - intros. apply tableRowsLoop_rendered.
  - intros cell rest cellElements st V. cbn [rowCellsLoop]. rewrite V.
    now destruct (processTableCell cell st).
Qed.

Lemma cellRuns_without_breaks rs :
  forall acc,
    fold_left cellRun
              (filter (fun r => negb (isLineBreak r || isPageBreak r)) rs) acc
    = fold_left cellRun rs acc.
Proof.
  induction rs as [| run rest IH]; intros acc; [reflexivity |].
  destruct run; simpl; apply IH.
Qed.

Lemma cellParagraph_without_breaks paragraph st :
  cellParagraph (withoutBreaks paragraph) st = cellParagraph paragraph st.
Proof.
  unfold cellParagraph. simpl runs. rewrite cellRuns_without_breaks.
  reflexivity.
Qed.

Lemma cellParagraphs_without_breaks ps :
  forall cellElements st,
    cellParagraphs (map withoutBreaks ps) cellElements st
    = cellParagraphs ps cellElements st.
Proof.
  induction ps as [| p rest IH]; intros cellElements st; [reflexivity |].
  cbn [map]. rewrite !cellParagraphs_cons, cellParagraph_without_breaks, IH.
  now destruct rest.
Qed.

Lemma processTableCell_elements cell st :
  elements (snd (processTableCell cell st)) = elements st.
Proof. apply processTableCell_adds. Qed.

(** C8: in a paragraph of a table cell a line-break run and a page-break
    run do nothing: the cell is serialized as if they were not there, no
    element reaches the element list and the pending footnotes are only
    extended, never flushed. In a body paragraph the line break appends a
    newline and moves the cursor, and the page break leaves the
    paragraph with a page-break marker as last element. *)
Theorem cell_breaks_dropped :
  (forall acc, cellRun acc BreakRun = acc /\ cellRun acc PageBreakRun = acc)
  /\ (forall cell st,
         processTableCell (cellWithoutBreaks cell) st
         = processTableCell cell st)
  /\ (forall cell st,
         elements (snd (processTableCell cell st)) = elements st
         /\ collectedFootnotes (snd (processTableCell cell st))
            = collectedFootnotes st ++ cellFootnotes cell)
  /\ (forall loop,
         collectRun BreakRun loop
         = {| paraContent := paraContent loop ++ [[newline]];
              paraElements := paraElements loop;
              self := advance 1 (self loop) |})
  /\ (forall paragraph rest loop,
         paragraphRuns paragraph (PageBreakRun :: rest) loop
         = pageBreak paragraph loop
         /\ exists before,
             elements (pageBreak paragraph loop) = before ++ [EPageBreak]).
Proof.
  split; [intros acc; split; reflexivity |].
  split.
  { intros cell st. unfold processTableCell. simpl paragraphs.
    now rewrite cellParagraphs_without_breaks. }
  split.
  { intros cell st. split.
    - apply processTableCell_elements.
    - apply processTableCell_pending. }
  split; [reflexivity |].
  intros paragraph rest loop. split; [reflexivity |].
  unfold pageBreak. eexists. simpl. reflexivity.
Qed.

(** *** The two generators *)

Lemma no_footnoteRef_footnotes rs :
  forallb (fun r => negb (isFootnoteRef r)) rs = true ->
  flat_map footnoteOf rs = [].
Proof.
  induction rs as [| run rest IH]; [reflexivity |].
  simpl. intros H. apply andb_true_iff in H. destruct H as [H1 H2].
  rewrite (IH H2). now destruct run.
Qed.

Lemma legacy_collectRun run loop :
  isFootnoteRef run = false ->
  Legacy.collectRun run (forgetLoop loop) = forgetLoop (collectRun run loop).
Proof.
  intros NF. destruct run as [t | | data w h | | | id body];
    try discriminate; try reflexivity.
  simpl. now destruct (truthy data).
Qed.

Lemma legacy_finishParagraph paragraph loop :
  Legacy.finishParagraph paragraph (forgetLoop loop)
  = forget (finishParagraph paragraph loop).
Proof.
  unfold Legacy.finishParagraph, finishParagraph. simpl.
  now destruct (paraContent loop).
Qed.

Lemma legacy_pageBreak paragraph loop :
  collectedFootnotes (self loop) = [] ->
  Legacy.pageBreak paragraph (forgetLoop loop)
  = forget (pageBreak paragraph loop).
Proof.
  intros F. unfold Legacy.pageBreak, pageBreak.
  rewrite flushCollected_pending, F. unfold flushCollected. simpl.
  now destruct (paraElements loop).
Qed.

Lemma legacy_paragraphRuns paragraph rs :
  forallb (fun r => negb (isFootnoteRef r)) rs = true ->
  forall loop,
    collectedFootnotes (self loop) = [] ->
    Legacy.paragraphRuns paragraph rs (forgetLoop loop)
    = forget (paragraphRuns paragraph rs loop)
    /\ collectedFootnotes (paragraphRuns paragraph rs loop) = [].
Proof.
  induction rs as [| run rest IH]; intros NF loop F.
  - split; [apply legacy_finishParagraph |].
    cbn [paragraphRuns]. now rewrite finishParagraph_pending.
  - split_forallb NF N1 N2.
    apply negb_true_iff in N1.
    destruct (isPageBreak run) eqn:PB.
    + destruct run; try discriminate.
      split; [now apply legacy_pageBreak | apply pageBreak_pending].
    + rewrite paragraphRuns_cons by exact PB.
      replace (Legacy.paragraphRuns paragraph (run :: rest) (forgetLoop loop))
        with (Legacy.paragraphRuns paragraph rest
                (Legacy.collectRun run (forgetLoop loop)))
        by (destruct run; try discriminate; reflexivity).
      rewrite (legacy_collectRun run loop N1).
      apply (IH N2).
      destruct (collectRun_step run loop PB) as (_ & F' & _).
      rewrite F', F. now destruct run.
Qed.

Lemma legacy_cellRun acc run :
  isFootnoteRef run = false ->
  Legacy.cellRun (forgetPair acc) run = forgetPair (cellRun acc run).
Proof.
  intros NF. destruct run as [t | | data w h | | | id body];
    try discriminate; try reflexivity.
  simpl. now destruct (truthy data).
Qed.

Lemma legacy_cellRuns rs :
  forallb (fun r => negb (isFootnoteRef r)) rs = true ->
  forall acc,
    fold_left Legacy.cellRun rs (forgetPair acc)
    = forgetPair (fold_left cellRun rs acc).
Proof.
  induction rs as [| run rest IH]; intros NF acc; [reflexivity |].
  split_forallb NF N1 N2.
  apply negb_true_iff in N1.
  simpl fold_left. rewrite (legacy_cellRun acc run N1). now apply IH.
Qed.

Lemma legacy_cellParagraph paragraph st :
  paragraphNoFootnoteRef paragraph = true ->
  Legacy.cellParagraph paragraph (forget st)
  = forgetPair (cellParagraph paragraph st).
Proof.
  intros NF. unfold Legacy.cellParagraph, cellParagraph.
  change ([], forget st) with (forgetPair (@nil Leaf, st)).
  rewrite (legacy_cellRuns (runs paragraph) NF).
  destruct (fold_left cellRun (runs paragraph) ([], st)) as [ls st1].
  now destruct ls.
Qed.

Lemma legacy_cellParagraphs ps :
  forallb paragraphNoFootnoteRef ps = true ->
  forall cellElements st,
    Legacy.cellParagraphs ps cellElements (forget st)
    = forgetPair (cellParagraphs ps cellElements st).
Proof.
  induction ps as [| p rest IH]; intros NF cellElements st; [reflexivity |].
  split_forallb NF N1 N2.
  rewrite cellParagraphs_cons. cbn [Legacy.cellParagraphs].
  rewrite (legacy_cellParagraph p st N1).
  destruct (cellParagraph p st) as [el st1]. simpl.
  rewrite <- (IH N2). now destruct rest.
Qed.

Lemma legacy_processTableCell cell st :
  forallb paragraphNoFootnoteRef (paragraphs cell) = true ->
  Legacy.processTableCell cell (forget st)
  = forgetPair (processTableCell cell st).
Proof.
  intros NF. unfold Legacy.processTableCell, processTableCell.
  rewrite (legacy_cellParagraphs (paragraphs cell) NF).
  destruct (cellParagraphs (paragraphs cell) [] st) as [els st1].
  now destruct els.
Qed.

Lemma legacy_rowCellsLoop cs :
  forallb (fun c => forallb paragraphNoFootnoteRef (paragraphs c)) cs = true ->
  forall cellElements st,
    Legacy.rowCellsLoop cs cellElements (forget st)
    = forgetPair (rowCellsLoop cs cellElements st).
Proof.
  induction cs as [| cell rest IH]; intros NF cellElements st; [reflexivity |].
  split_forallb NF N1 N2.
  cbn [Legacy.rowCellsLoop rowCellsLoop].
  destruct (vMergeContinue cell); [now apply IH |].
  rewrite (legacy_processTableCell cell st N1).
  destruct (processTableCell cell st) as [cc st1]. simpl.
  now apply IH.
Qed.

Lemma legacy_tableRowsLoop rs :
  forallb (fun row =>
             forallb (fun c => forallb paragraphNoFootnoteRef (paragraphs c))
                     (cells row)) rs = true ->
  forall i rowElements st,
    Legacy.tableRowsLoop rs i rowElements (forget st)
    = forgetPair (tableRowsLoop rs i rowElements st).
Proof.
  induction rs as [| row rest IH]; intros NF i rowElements st;
    [reflexivity |].
  split_forallb NF N1 N2.
  cbn [Legacy.tableRowsLoop tableRowsLoop].
  rewrite (legacy_rowCellsLoop (cells row) N1).
  destruct (rowCellsLoop (cells row) [] st) as [ce st1]. simpl.
  now apply IH.
Qed.

Lemma tableFootnotes_none table :
  tableNoFootnoteRef table = true -> tableFootnotes table = [].
Proof.
  unfold tableNoFootnoteRef, tableFootnotes. intros NF.
  induction (rows table) as [| row rest IH]; [reflexivity |].
  split_forallb NF N1 N2.
  simpl. rewrite (IH N2), app_nil_r. clear IH N2.
  unfold renderedCells.
  induction (cells row) as [| c cs IHc]; [reflexivity |].
  split_forallb N1 C1 C2.
  assert (Z : cellFootnotes c = []).
  { unfold cellFootnotes. clear IHc C2.
    induction (paragraphs c) as [| p ps IHp]; [reflexivity |].
    split_forallb C1 P1 P2.
    simpl. now rewrite (no_footnoteRef_footnotes _ P1), (IHp P2). }
  simpl. destruct (vMergeContinue c); simpl; [now apply IHc |].
  rewrite Z. now apply IHc.
Qed.

Lemma legacy_processElement st element :
  match element with
  | BParagraph p => paragraphNoFootnoteRef p
  | BTable t => tableNoFootnoteRef t
  end = true ->
  collectedFootnotes st = [] ->
  Legacy.processElement (forget st) element
  = forget (processElement st element)
  /\ collectedFootnotes (processElement st element) = [].
Proof.
  intros NF F. destruct element as [p | t].
  - apply (legacy_paragraphRuns p (runs p) NF (startLoop st)). exact F.
  - split.
    + simpl. unfold Legacy.processTable, processTable.
      rewrite (legacy_tableRowsLoop (rows t) NF).
      now destruct (tableRowsLoop (rows t) 0 [] st).
    + rewrite processElement_pending. simpl.
      now rewrite F, (tableFootnotes_none t NF).
Qed.

Lemma legacy_processElements blocks :
  forallb (fun b => match b with
                    | BParagraph p => paragraphNoFootnoteRef p
                    | BTable t => tableNoFootnoteRef t
                    end) blocks = true ->
  forall st,
    collectedFootnotes st = [] ->
    Legacy.processElements blocks (forget st)
    = forget (processElements blocks st)
    /\ collectedFootnotes (processElements blocks st) = [].
Proof.
  induction blocks as [| b rest IH]; intros NF st F; [now split |].
  split_forallb NF N1 N2.
  destruct (legacy_processElement st b N1 F) as [E F'].
  simpl. unfold Legacy.processElements in *. simpl. rewrite E.
  now apply IH.
Qed.

(** C9: on a document without footnote-reference runs the generator of
    [js/udf-generator.js] and the footnote-aware generator end with the
    same buffer, the same elements and the same cursor, and produce the
    same XML. *)
Theorem generators_agree document :
  noFootnoteRef document = true ->
  Legacy.serialize document = forget (serialize document)
  /\ Legacy.content (Legacy.serialize document) = content (serialize document)
  /\ Legacy.elements (Legacy.serialize document)
     = elements (serialize document)
  /\ Legacy.generate document = generate document.
Proof.
  intros NF.
  destruct (legacy_processElements (docElements document) NF initialState
                                   eq_refl) as [E F].
  assert (S : Legacy.serialize document = forget (serialize document)).
  { unfold Legacy.serialize, serialize, flushAtEnd.
    change Legacy.initialState with (forget initialState).
    rewrite E, F. unfold Legacy.ensureContent, ensureContent. simpl.
    now destruct (content (processElements (docElements document)
                                           initialState)). }
  split; [exact S |].
  unfold Legacy.generate, generate. rewrite S. now repeat split.
Qed.

End GeneratorFacts.

(** ** The error path of the parser *)

Section ParserFacts.
Context {Num : JsNumber}.
Variables File Zip XmlDocument Relationships Images Exception : Type.
Variable loadAsync : File -> Result Exception Zip.
Variable parseRelationships : Zip -> Result Exception Relationships.
Variable extractImages : Zip -> Result Exception Images.
Variable readDocumentXml : Zip -> Result Exception jsstring.
Variable parseXml : jsstring -> XmlDocument.
Variable extractElements :
  XmlDocument -> Relationships -> Images -> Result Exception (list Block).

(** C2 (amended): a call of [parse] either returns the document or
    raises one and the same error, a plain [Error] with a fixed message
    and without a cause, whichever step failed; the caught value is only
    logged. A failure differs from a success, but two failures do not
    differ from each other. *)
Theorem parse_raises_one_error (file : File) :
  let outcome :=
    parse loadAsync parseRelationships extractImages readDocumentXml
          parseXml extractElements file in
  ((exists document, outcome = Returned document)
   \/ (exists cause, outcome = Raised cause (parseError Exception)))
  /\ errName (parseError Exception) = lit "Error"
  /\ errCause (parseError Exception) = None.
Proof.
  intros outcome. split; [| split; reflexivity].
  subst outcome. unfold parse.
  destruct (parseSteps loadAsync parseRelationships extractImages
                       readDocumentXml parseXml extractElements file)
    as [document | cause].
  - left. now exists document.
  - right. now exists cause.
Qed.

End ParserFacts.

(** ** The properties on concrete inputs *)

(** C1, as the specification states it, fails on a paragraph with a line
    break: the buffer [a], newline, [b] has three characters and the two
    content elements have length one each. *)
Lemma line_break_is_unclaimed :
  let st := serialize lineBreakDocument in
  content st = lit "a" ++ [newline] ++ lit "b"
  /\ map (fun l => (leafStart l, leafLength l)) (leaves (elements st))
     = [(0, 1); (2, 1)]
  /\ ~ (length (content st) = sumLengths (leaves (elements st))
        /\ Tiles 0 (leaves (elements st)) (content st) 0).
Proof.
  split; [reflexivity |]. split; [reflexivity |].
  intros [H _]. vm_compute in H. discriminate.
Qed.

(** C2, as the specification states it, fails: an archive that cannot be
    loaded and a body whose elements cannot be extracted raise the same
    error, so no reading of the error tells a [MalformedPackageError] from
    an [UnsupportedDocumentError]. *)
Lemma parse_error_kinds_coincide :
  sampleParse true = Raised 1 (parseError nat)
  /\ sampleParse false = Raised 2 (parseError nat)
  /\ ~ exists kindOf : ErrorObject nat -> ErrorKind,
        option_map kindOf (raisedError (sampleParse true))
        = Some MalformedPackageError
        /\ option_map kindOf (raisedError (sampleParse false))
           = Some UnsupportedDocumentError.
Proof.
  split; [reflexivity |]. split; [reflexivity |].
  intros (kindOf & M & U). simpl in M, U. congruence.
Qed.

(** C3, as the specification states it, fails twice. A body paragraph
    with only a line break before its page break writes the newline and
    pushes the marker, but no paragraph element holds what was collected.
    In a cell, the paragraph [a], reference 1, page break, [b] is written
    whole: no marker is pushed, the footnote stays pending and [b], the run
    after the page break, is processed. *)
Lemma page_break_without_paragraph :
  let st := processParagraph breakThenPageBreak initialState in
  let cell := processTableCell pageBreakCell initialState in
  content st = [newline]
  /\ elements st = [EPageBreak]
  /\ (forall p, ~ In (EParagraph p) (elements st))
  /\ content (snd cell) = lit "a1b"
  /\ map (fun p => map (fun l => (leafStart l, leafLength l)) (pChildren p))
         (fst cell)
     = [[(0, 1); (1, 1); (2, 1)]]
  /\ ~ In EPageBreak (elements (snd cell))
  /\ collectedFootnotes (snd cell)
     = [{| fnNumber := lit "1"; fnText := lit "note" |}].
Proof.
  split; [reflexivity |]. split; [reflexivity |].
  split; [intros p [H | []]; discriminate |].
  split; [reflexivity |]. split; [reflexivity |].
  split; [intros [] | reflexivity].
Qed.

(** The paragraph [a], reference 1, page break, [b]: the paragraph element
    holds the two elements of [a] and of the reference, the footnote
    section precedes the marker, nothing is pending afterwards and [b] is
    not processed. *)
Lemma page_break_ends_sample_paragraph :
  let st := processParagraph pageBreakParagraph initialState in
  content st = lit "a1" ++ footnoteSectionText [{| fnNumber := lit "1";
                                                    fnText := lit "note" |}]
  /\ map (fun l => (leafStart l, leafLength l))
         (leaves (firstn 1 (elements st)))
     = [(0, 1); (1, 1)]
  /\ last (elements st) (ETable 0 [] [] []) = EPageBreak
  /\ collectedFootnotes st = []
  /\ st = processParagraph
            (withRuns pageBreakParagraph
               [plainText "a"; FootnoteRefRun (lit "1") (lit "note");
                PageBreakRun])
            initialState.
Proof.
  destruct (page_break_ends_paragraph (Num := intNumber) pageBreakParagraph
              [plainText "a"; FootnoteRefRun (lit "1") (lit "note")]
              [plainText "b"] initialState eq_refl eq_refl) as (E & I & _).
  split; [rewrite E; reflexivity |].
  split; [rewrite E; reflexivity |].
  split; [rewrite E; reflexivity |].
  split; [rewrite E; reflexivity | exact I].
Defined.

(** The continuation cell of the sample table leaves the state as it is. *)
Lemma continuation_cell_skipped_sample :
  rowCellsLoop
    [plainCell true [plainParagraph [plainText "y"]]] [] initialState
  = ([], initialState).
Proof.
  rewrite (proj1 (continuation_cell_skipped (Num := intNumber))
                 (plainCell true [plainParagraph [plainText "y"]])
                 [] [] initialState eq_refl).
  reflexivity.
Defined.

(** The two generators on the sample document of a paragraph with a page
    break, a table and an empty paragraph. *)
Lemma generators_agree_sample :
  Legacy.generate plainDocument = generate plainDocument.
Proof.
  exact (proj2 (proj2 (proj2 (generators_agree (Num := intNumber)
                                               plainDocument eq_refl)))).
Defined.

(** The sample document: the line break of the cell leaves no trace, the
    continuation cell none either, and the empty paragraph gets its
    placeholder. *)
Example plainDocument_buffer :
  content (serialize plainDocument)
  = lit "a" ++ [tabChar] ++ lit "x" ++ [zeroWidthSpace]
  /\ map (fun l => (leafStart l, leafLength l))
         (leaves (elements (serialize plainDocument)))
     = [(0, 1); (1, 1); (2, 1); (3, 1)].
Proof. split; reflexivity. Qed.

(** The foreground attribute of a red run, as the generator prints it. *)
Example red_foreground :
  attr "foreground" (intToString (hexToRgbInt (Some (lit "#FF0000"))))
  = lit "foreground=" ++ dquote ++ lit "-65536" ++ dquote.
Proof. vm_compute. reflexivity. Qed.

(** A page break met in a cell is passed over and the text after it is
    rendered; in a body paragraph the same runs stop at the marker. *)
Example page_break_in_cell :
  let runs := [PageBreakRun; plainText "y"] in
  content (snd (processTableCell (plainCell false [plainParagraph runs])
                                 initialState))
  = lit "y"
  /\ content (processParagraph (plainParagraph runs) initialState) = []
  /\ elements (processParagraph (plainParagraph runs) initialState)
     = [EPageBreak].
Proof. repeat split; reflexivity. Qed.

(** * Further properties *)

(** ** [escapeXml] *)

Lemma flat_map_flat_map {A B C : Type} (f : A -> list B) (g : B -> list C)
      (l : list A) :
  flat_map g (flat_map f l) = flat_map (fun x => flat_map g (f x)) l.
Proof.
  induction l as [| x l IH]; [reflexivity |].
  simpl. now rewrite flat_map_app, IH.
Qed.

Lemma escapeChar_cases (x : N) :
  (x = 38%N /\ escapeChar x = lit "&amp;")
  \/ (x = 60%N /\ escapeChar x = lit "&lt;")
  \/ (x = 62%N /\ escapeChar x = lit "&gt;")
  \/ (x = 34%N /\ escapeChar x = lit "&quot;")
  \/ (x = 39%N /\ escapeChar x = lit "&apos;")
  \/ (escapeChar x = [x]
      /\ x <> 38%N /\ x <> 60%N /\ x <> 62%N /\ x <> 34%N /\ x <> 39%N).
Proof.
  unfold escapeChar.
  destruct (N.eqb_spec x 38) as [-> | N1]; [tauto |].
  destruct (N.eqb_spec x 60) as [-> | N2]; [tauto |].
  destruct (N.eqb_spec x 62) as [-> | N3]; [tauto |].
  destruct (N.eqb_spec x 34) as [-> | N4]; [tauto |].
  destruct (N.eqb_spec x 39) as [-> | N5]; [tauto |].
  repeat right. tauto.
Qed.

Lemma escapeXmlChain_char (x : N) :
  replaceAll 39 (lit "&apos;")
    (replaceAll 34 (lit "&quot;")
       (replaceAll 62 (lit "&gt;")
          (replaceAll 60 (lit "&lt;") (replaceAll 38 (lit "&amp;") [x]))))
  = escapeChar x.
Proof.
  destruct (escapeChar_cases x)
    as [[-> E] | [[-> E] | [[-> E] | [[-> E] | [[-> E] | (E & N1 & N2 & N3 & N4 & N5)]]]]];
    rewrite E; try reflexivity.
  unfold replaceAll. simpl.
  apply N.eqb_neq in N1, N2, N3, N4, N5.
  rewrite N1. simpl. rewrite N2. simpl. rewrite N3. simpl. rewrite N4. simpl.
  rewrite N5. reflexivity.
Qed.

Lemma replaceAll_flat_map (c : N) (rep : jsstring) (f : N -> jsstring)
      (s : jsstring) :
  replaceAll c rep (flat_map f s) = flat_map (fun x => replaceAll c rep (f x)) s.
Proof. apply flat_map_flat_map. Qed.

Lemma flat_map_singleton (s : jsstring) : flat_map (fun x => [x]) s = s.
Proof. induction s as [| x s IH]; [reflexivity |]. simpl. now rewrite IH. Qed.

(** [escapeXml]: the five replacements of the source, applied one after
    the other, escape each character once, an ampersand that a replacement
    wrote is not escaped again, and the result holds none of the characters
    that end or open an attribute value or a tag. *)
Theorem escapeXml_is_characterwise :
  (forall s, escapeXmlChain (Some s) = escapeXml s)
  /\ escapeXmlChain None = []
  /\ forall s, forallb (fun c => negb (isXmlSpecial c)) (escapeXml s) = true.
Proof.
  split; [| split; [reflexivity |]].
  - intros s. unfold escapeXmlChain, escapeXml.
    destruct s as [| c s]; [reflexivity |].
    cbn [truthy negb unwrap].
    rewrite <- (flat_map_singleton (c :: s)) at 1.
    rewrite !replaceAll_flat_map.
    apply flat_map_ext. intros x. apply escapeXmlChain_char.
  - intros s. unfold escapeXml.
    induction s as [| x s IH]; [reflexivity |].
    simpl. rewrite forallb_app, IH, andb_true_r.
    destruct (escapeChar_cases x)
      as [[-> E] | [[-> E] | [[-> E] | [[-> E] | [[-> E] | (E & N1 & N2 & N3 & N4 & N5)]]]]];
      rewrite E; try reflexivity.
    simpl. unfold isXmlSpecial. simpl.
    apply N.eqb_neq in N2, N3, N4, N5.
    now rewrite N2, N3, N4, N5.
Qed.

Lemma escapeChar_prefix (x y : N) (u v : jsstring) :
  escapeChar x ++ u = escapeChar y ++ v -> x = y /\ u = v.
Proof.
  intros H.
  destruct (escapeChar_cases x)
    as [[-> E] | [[-> E] | [[-> E] | [[-> E] | [[-> E] | (E & X1 & X2 & X3 & X4 & X5)]]]]];
  destruct (escapeChar_cases y)
    as [[-> F] | [[-> F] | [[-> F] | [[-> F] | [[-> F] | (F & Y1 & Y2 & Y3 & Y4 & Y5)]]]]];
  rewrite ?E, ?F in H; simpl in H;
  try discriminate; try (injection H; intros; subst; split; congruence).
Qed.

(** [escapeXml] loses nothing: two texts with the same escaped form are
    the same text. *)
Theorem escapeXml_injective (a b : jsstring) :
  escapeXml a = escapeXml b -> a = b.
Proof.
  unfold escapeXml. revert b.
  induction a as [| x a IH]; intros b H.
  - destruct b as [| y b]; [reflexivity |].
    simpl in H.
    destruct (escapeChar_cases y)
      as [[-> F] | [[-> F] | [[-> F] | [[-> F] | [[-> F] | (F & _)]]]]];
      rewrite F in H; discriminate.
  - destruct b as [| y b].
    + simpl in H.
      destruct (escapeChar_cases x)
        as [[-> F] | [[-> F] | [[-> F] | [[-> F] | [[-> F] | (F & _)]]]]];
        rewrite F in H; discriminate.
    + simpl in H. apply escapeChar_prefix in H. destruct H as [-> H].
      now rewrite (IH b H).
Qed.

Lemma escapeXml_injective_sample :
  escapeXml (lit "Arial & <Co>") = escapeXml (lit "Arial & <Co>")
  /\ lit "Arial & <Co>" = lit "Arial & <Co>".
Proof.
  split; [reflexivity |].
  exact (escapeXml_injective (lit "Arial & <Co>") (lit "Arial & <Co>") eq_refl).
Defined.

(** ** [arrayBufferToBase64] *)

Lemma base64Digit_not_pad (i : N) : base64Digit i <> 61%N.
Proof.
  unfold base64Digit.
  destruct (N.ltb_spec i 26); [lia |].
  destruct (N.ltb_spec i 52); [lia |].
  destruct (N.ltb_spec i 62); [lia |].
  destruct (N.eqb_spec i 62); lia.
Qed.

Lemma base64Digit_injective (i j : N) :
  (i < 64)%N -> (j < 64)%N -> base64Digit i = base64Digit j -> i = j.
Proof.
  unfold base64Digit. intros Hi Hj.
  destruct (N.ltb_spec i 26); destruct (N.ltb_spec j 26); try lia;
    destruct (N.ltb_spec i 52); destruct (N.ltb_spec j 52); try lia;
    destruct (N.ltb_spec i 62); destruct (N.ltb_spec j 62); try lia;
    destruct (N.eqb_spec i 62); destruct (N.eqb_spec j 62); lia.
Qed.

(** The induction that follows [btoa]: three bytes at a time. *)
Lemma by_three (P : list N -> Prop) :
  P [] -> (forall a, P [a]) -> (forall a b, P [a; b]) ->
  (forall a b c rest, P rest -> P (a :: b :: c :: rest)) ->
  forall bytes, P bytes.
Proof.
  intros H0 H1 H2 H3.
  assert (A : forall n bytes, length bytes <= n -> P bytes).
  { induction n as [| n IH]; intros bytes L.
    - destruct bytes; [exact H0 | simpl in L; lia].
    - destruct bytes as [| a [| b [| c rest]]]; auto.
      apply H3. apply IH. simpl in L. lia. }
  intros bytes. now apply (A (length bytes)).
Qed.

Lemma btoa_length (bytes : list N) :
  length (btoa bytes) = 4 * ((length bytes + 2) / 3).
Proof.
  induction bytes as [| a | a b | a b c rest IH] using by_three;
    try reflexivity.
  change (btoa (a :: b :: c :: rest)) with
    ([base64Digit (a / 4); base64Digit ((a mod 4) * 16 + b / 16);
      base64Digit ((b mod 16) * 4 + c / 64); base64Digit (c mod 64)]%N
     ++ btoa rest).
  rewrite length_app, IH. simpl length.
  replace (S (S (S (length rest))) + 2) with (length rest + 2 + 1 * 3) by lia.
  rewrite Nat.div_add by lia. lia.
Qed.

Lemma btoa_injective (bytes : list N) :
  forall bytes',
    Forall (fun b => (b <= 255)%N) bytes ->
    Forall (fun b => (b <= 255)%N) bytes' ->
    btoa bytes = btoa bytes' -> bytes = bytes'.
Proof.
  induction bytes as [| a | a b | a b c rest IH] using by_three;
    intros bytes' B B' H;
    destruct bytes' as [| a' [| b' [| c' rest']]];
    try discriminate; try reflexivity;
    cbn [btoa app] in H; injection H; clear H; intros;
    repeat match goal with
           | E : 61%N = base64Digit _ |- _ =>
               exfalso; symmetry in E; exact (base64Digit_not_pad _ E)
           | E : base64Digit _ = 61%N |- _ =>
               exfalso; exact (base64Digit_not_pad _ E)
           end;
    repeat match goal with
           | F : Forall _ (_ :: _) |- _ => inversion F; subst; clear F
           end;
    repeat match goal with
           | E : base64Digit _ = base64Digit _ |- _ =>
               apply base64Digit_injective in E;
               [| divmod_lia | divmod_lia]
           end.
  - f_equal. divmod_lia.
  - assert (a = a') by divmod_lia. assert (b = b') by divmod_lia. now subst.
  - assert (a = a') by divmod_lia. assert (b = b') by divmod_lia.
    assert (c = c') by divmod_lia.
    subst. f_equal. f_equal. f_equal. now apply IH.
Qed.

(** [arrayBufferToBase64]: the text has four characters for every three
    bytes begun, so it is empty, and falsy, exactly for an empty buffer. *)
Theorem arrayBufferToBase64_length (buffer : list Byte.byte) :
  length (arrayBufferToBase64 buffer) = 4 * ((length buffer + 2) / 3)
  /\ (truthy (Some (arrayBufferToBase64 buffer)) = false <-> buffer = []).
Proof.
  unfold arrayBufferToBase64. split.
  - now rewrite btoa_length, length_map.
  - destruct buffer as [| a [| b [| c rest]]]; simpl; split;
      intros H; try reflexivity; discriminate.
Qed.

(** [arrayBufferToBase64] loses nothing: two buffers with the same text
    hold the same bytes. *)
Theorem arrayBufferToBase64_injective (buffer buffer' : list Byte.byte) :
  arrayBufferToBase64 buffer = arrayBufferToBase64 buffer' -> buffer = buffer'.
Proof.
  unfold arrayBufferToBase64. intros H.
  apply btoa_injective in H.
  - revert buffer' H. induction buffer as [| x xs IH]; intros [| y ys] H;
      try discriminate; [reflexivity |].
    simpl in H. injection H. intros T E.
    f_equal; [| now apply IH].
    apply (f_equal Strings.Byte.of_N) in E.
    rewrite !Strings.Byte.of_to_N in E. congruence.
  - apply Forall_forall. intros n I. apply in_map_iff in I.
    destruct I as (x & <- & _).
    pose proof (Strings.Byte.to_N_bounded x). lia.
  - apply Forall_forall. intros n I. apply in_map_iff in I.
    destruct I as (x & <- & _).
    pose proof (Strings.Byte.to_N_bounded x). lia.
Qed.

Lemma arrayBufferToBase64_injective_sample :
  arrayBufferToBase64 [Byte.x4d; Byte.x61] = lit "TWE="
  /\ [Byte.x4d; Byte.x61] = [Byte.x4d; Byte.x61].
Proof.
  split; [reflexivity |].
  exact (arrayBufferToBase64_injective [Byte.x4d; Byte.x61]
                                       [Byte.x4d; Byte.x61] eq_refl).
Defined.

(** ** The choice of a file *)

Lemma split_nonempty (c : N) (s : jsstring) : split c s <> [].
Proof.
  destruct s as [| x s]; simpl; [discriminate |].
  destruct (N.eqb x c); [discriminate |].
  destruct (split c s); discriminate.
Qed.

Lemma split_app (c : N) (s t : jsstring) :
  split c (s ++ c :: t) = split c s ++ split c t.
Proof.
  induction s as [| x s IH].
  - simpl. now rewrite N.eqb_refl.
  - simpl. rewrite IH. destruct (N.eqb x c); [reflexivity |].
    pose proof (split_nonempty c s) as NE.
    destruct (split c s); [contradiction | reflexivity].
Qed.

Lemma last_app_nonempty {A : Type} (l l' : list A) (d : A) :
  l' <> [] -> last (l ++ l') d = last l' d.
Proof.
  intros NE. induction l as [| x l IH]; [reflexivity |].
  simpl. rewrite IH. destruct (l ++ l') eqn:E; [| reflexivity].
  apply app_eq_nil in E. destruct E as [_ E]. contradiction.
Qed.

Lemma getFileExtension_docx (stem : jsstring) :
  getFileExtension (stem ++ lit ".docx") = lit "docx".
Proof.
  unfold getFileExtension.
  change (lit ".docx") with (46%N :: lit "docx").
  rewrite split_app, last_app_nonempty by apply split_nonempty.
  reflexivity.
Qed.

(** An occurrence of [.docx] that starts inside [s] lies inside [s]: the
    dot is its first character only. *)
Lemma startsWith_before_docx (s : jsstring) :
  s <> [] ->
  startsWith (lit ".docx") (s ++ lit ".docx") = startsWith (lit ".docx") s.
Proof.
  intros NE.
  destruct s as [| a [| b [| c [| d [| e s]]]]]; [contradiction | | | | |];
    simpl; rewrite ?andb_false_r; reflexivity.
Qed.


Lemma replaceSubstring_suffix (stem : jsstring) :
  includes (lit ".docx") stem = false ->
  replaceSubstring (lit ".docx") (lit ".udf") (stem ++ lit ".docx")
  = stem ++ lit ".udf".
Proof.
  induction stem as [| x stem IH]; intros H; [reflexivity |].
  cbn [includes] in H. apply orb_false_iff in H. destruct H as [H1 H2].
  change ((x :: stem) ++ lit ".docx") with (x :: (stem ++ lit ".docx")).
  cbn [replaceSubstring].
  change (x :: (stem ++ lit ".docx")) with ((x :: stem) ++ lit ".docx").
  rewrite startsWith_before_docx by discriminate. rewrite H1.
  now rewrite (IH H2).
Qed.

(** [processFile]: a name that ends in [.docx] and holds no earlier
    [.docx] is accepted, and the download is named after it with [.udf]
    in the place of the extension. *)
Theorem processFile_renames (stem : jsstring) :
  includes (lit ".docx") stem = false ->
  processFile (stem ++ lit ".docx")
  = Selected (stem ++ lit ".docx") (stem ++ lit ".udf").
Proof.
  intros H. unfold processFile.
  rewrite getFileExtension_docx. simpl negb. cbv iota.
  now rewrite replaceSubstring_suffix.
Qed.

Lemma processFile_renames_sample :
  processFile (lit "my.report.docx")
  = Selected (lit "my.report.docx") (lit "my.report.udf").
Proof.
  exact (processFile_renames (lit "my.report") eq_refl).
Defined.



(** ** Colors of any text *)

Lemma land_below (m k : Z) :
  (0 <= m < 2 ^ 24)%Z -> (0 <= Z.land m k < 2 ^ 24)%Z.
Proof.
  intros Hm.
  assert (NN : (0 <= Z.land m k)%Z) by (apply Z.land_nonneg; lia).
  split; [exact NN |].
  destruct (Z.eq_dec (Z.land m k) 0) as [-> | NZ]; [reflexivity |].
  apply Z.log2_lt_pow2; [lia |].
  destruct (Z.lt_ge_cases (Z.log2 (Z.land m k)) 24) as [L | G]; [exact L |].
  exfalso.
  assert (B : Z.testbit (Z.land m k) (Z.log2 (Z.land m k)) = true)
    by (apply Z.bit_log2; lia).
  rewrite Z.land_spec in B. apply andb_true_iff in B. destruct B as [B _].
  destruct (Z.eq_dec m 0) as [-> | MZ]; [now rewrite Z.bits_0 in B |].
  rewrite Z.bits_above_log2 in B; [discriminate | lia |].
  apply Z.lt_le_trans with 24%Z; [| exact G].
  apply Z.log2_lt_pow2; lia.
Qed.

(** Once the alpha bits are set, no further operand clears them. *)
Lemma or32_opaque (x y : Z) :
  (-16777216 <= x < 0)%Z -> (-16777216 <= or32 x y < 0)%Z.
Proof.
  intros Hx. unfold or32.
  assert (P24 : (2 ^ 24 = 16777216)%Z) by reflexivity.
  assert (E : Z.lor x y = Z.lnot (Z.land (Z.lnot x) (Z.lnot y))).
  { rewrite <- Z.lnot_lor. now rewrite Z.lnot_involutive. }
  pose proof (land_below (Z.lnot x) (Z.lnot y)) as B.
  unfold Z.lnot in *.
  rewrite P24 in B.
  assert (R : (-16777216 <= Z.lor x y < 0)%Z) by (rewrite E; lia).
  rewrite wrap32_small; [exact R |].
  change (2 ^ 31)%Z with 2147483648%Z. lia.
Qed.

(** [hexToRgbInt]: whatever the text, the result is an opaque color: its
    alpha byte is [0xFF], the signed value lies between -16777216 (black)
    and -1 (white). *)
Theorem hexToRgbInt_opaque (hex : option jsstring) :
  (-16777216 <= hexToRgbInt hex < 0)%Z.
Proof.
  unfold hexToRgbInt. destruct (negb (truthy hex)); [lia |].
  repeat apply or32_opaque.
  change (shl32 255 24) with (-16777216)%Z. lia.
Qed.

Lemma removeFirst_absent (c : N) (s : jsstring) :
  forallb (fun x => negb (N.eqb x c)) s = true -> removeFirst c s = s.
Proof.
  induction s as [| x s IH]; [reflexivity |].
  intros H. split_forallb H H1 H2.
  simpl. apply negb_true_iff in H1. rewrite H1. now rewrite (IH H2).
Qed.

(** [hexToRgbInt]: the number sign that the parser puts before the value
    is optional; the digits alone give the same color. *)
Theorem hexToRgbInt_number_sign (s : jsstring) :
  forallb (fun x => negb (N.eqb x 35)) s = true ->
  hexToRgbInt (Some (35%N :: s)) = hexToRgbInt (Some s).
Proof.
  intros H. destruct s as [| c s]; [vm_compute; reflexivity |].
  unfold hexToRgbInt. cbn [truthy negb unwrap].
  rewrite (removeFirst_absent 35 (c :: s) H).
  cbn [removeFirst]. now rewrite N.eqb_refl.
Qed.

Lemma hexToRgbInt_number_sign_sample :
  hexToRgbInt (Some (lit "#00ff7F")) = hexToRgbInt (Some (lit "00ff7F")).
Proof.
  exact (hexToRgbInt_number_sign (lit "00ff7F") eq_refl).
Defined.

(** ** What the generator appends *)

Section GeneratorOutput.
Context {Num : JsNumber}.

Lemma collectRuns_cons run rest loop :
  collectRuns (run :: rest) loop = collectRuns rest (collectRun run loop).
Proof. reflexivity. Qed.

Lemma paragraphRuns_no_page_break paragraph rs :
  existsb isPageBreak rs = false ->
  forall loop,
    paragraphRuns paragraph rs loop
    = finishParagraph paragraph (collectRuns rs loop).
Proof.
  induction rs as [| run rest IH]; intros NP loop; [reflexivity |].
  simpl in NP. apply orb_false_iff in NP. destruct NP as [N1 N2].
  rewrite paragraphRuns_cons, collectRuns_cons by exact N1. now apply IH.
Qed.

Lemma page_break_position rs :
  existsb isPageBreak rs = true ->
  exists pre post,
    rs = pre ++ PageBreakRun :: post
    /\ forallb (fun r => negb (isPageBreak r)) pre = true.
Proof.
  induction rs as [| run rest IH]; [discriminate |].
  intros H. destruct (isPageBreak run) eqn:PB.
  - destruct run; try discriminate. now exists [], rest.
  - simpl in H. rewrite PB in H. destruct (IH H) as (pre & post & -> & NP).
    exists (run :: pre), post. split; [reflexivity |].
    simpl. now rewrite PB.
Qed.

Lemma paragraph_kinds_app (a b : list Element) :
  map kindOf a = repeat KParagraph (length a) ->
  map kindOf b = repeat KParagraph (length b) ->
  map kindOf (a ++ b) = repeat KParagraph (length (a ++ b)).
Proof.
  intros A B. now rewrite map_app, length_app, repeat_app, A, B.
Qed.

Lemma footnoteSection_kinds offset fs :
  map kindOf (footnoteSectionElements offset fs)
  = repeat KParagraph (length (footnoteSectionElements offset fs)).
Proof.
  unfold footnoteSectionElements. simpl. f_equal. f_equal.
  generalize (offset + 21).
  induction fs as [| g gs IH]; intros o; [reflexivity |].
  simpl. f_equal. apply IH.
Qed.

(** The elements a body paragraph pushes: one paragraph element, or, with
    a page break, paragraph elements and then the marker. *)
Lemma paragraphRuns_elements paragraph rs loop :
  exists new,
    elements (paragraphRuns paragraph rs loop) = elements (self loop) ++ new
    /\ if existsb isPageBreak rs
       then exists mid,
           new = mid ++ [EPageBreak]
           /\ map kindOf mid = repeat KParagraph (length mid)
       else exists el, new = [EParagraph el].
Proof.
  destruct (existsb isPageBreak rs) eqn:PB.
  - destruct (page_break_position rs PB) as (pre & post & -> & NP).
    rewrite (paragraphRuns_page_break paragraph pre post NP).
    destruct (collectRuns_self pre loop) as (_ & E & _).
    unfold pageBreak.
    set (st1 := flushCollected paragraph (collectRuns pre loop)).
    assert (E1 : exists m1,
               elements st1 = elements (self loop) ++ m1
               /\ map kindOf m1 = repeat KParagraph (length m1)).
    { subst st1. unfold flushCollected.
      destruct (paraElements (collectRuns pre loop)).
      - exists []. simpl. now rewrite E, app_nil_r.
      - eexists [_]. simpl. rewrite E. split; reflexivity. }
    destruct E1 as (m1 & E1 & K1).
    destruct (collectedFootnotes st1) as [| f fs] eqn:F.
    + exists (m1 ++ [EPageBreak]). simpl. rewrite E1, app_assoc.
      split; [reflexivity |]. now exists m1.
    + rewrite appendFootnotesSection_spec, F.
      eexists. simpl. rewrite E1, <- !app_assoc. split; [reflexivity |].
      eexists. rewrite !app_assoc. split; [reflexivity |].
      apply paragraph_kinds_app; [exact K1 | apply footnoteSection_kinds].
  - rewrite (paragraphRuns_no_page_break paragraph rs PB).
    destruct (collectRuns_self rs loop) as (_ & E & _).
    unfold finishParagraph.
    destruct (paraContent (collectRuns rs loop)); eexists; simpl;
      rewrite E; split; try reflexivity; eexists; reflexivity.
Qed.

Lemma processTable_elements table st :
  exists rowEls,
    elements (processTable table st)
    = elements st
      ++ [ETable (tableColumnCount table) (tableColumnSpans table)
                 (borderName (border table)) rowEls]
    /\ fst (tableRowsLoop (rows table) 0 [] st) = rowEls.
Proof.
  unfold processTable.
  destruct (tableRowsLoop_adds (rows table) 0 [] st) as (E & _).
  destruct (tableRowsLoop (rows table) 0 [] st) as [rowEls st1].
  exists rowEls. simpl in *. now rewrite E.
Qed.

Lemma processElement_elements st b :
  exists new,
    elements (processElement st b) = elements st ++ new
    /\ if blockHasPageBreak b
       then exists mid,
           new = mid ++ [EPageBreak]
           /\ map kindOf mid = repeat KParagraph (length mid)
       else map kindOf new = [blockKind b].
Proof.
  destruct b as [p | t].
  - destruct (paragraphRuns_elements p (runs p) (startLoop st))
      as (new & E & K).
    exists new. split; [exact E |].
    simpl. unfold hasPageBreak. destruct (existsb isPageBreak (runs p)).
    + exact K.
    + destruct K as (el & ->). reflexivity.
  - destruct (processTable_elements t st) as (rowEls & E & _).
    eexists. split; [exact E | reflexivity].
Qed.

Lemma content_extends st st' ls g :
  Extends st st' ls g ->
  exists added,
    content st' = content st ++ added
    /\ currentOffset st' = currentOffset st + length added.
Proof. intros (added & C & O & _). now exists added. Qed.

(** The buffer and the element list only grow: what [generate] has
    written stays, whatever block or footnote flush follows, and the cursor
    moves by the length of the added text. *)
Theorem generate_appends_only blocks st :
  let st' := flushAtEnd (processElements blocks st) in
  exists added new,
    content st' = content st ++ added
    /\ elements st' = elements st ++ new
    /\ currentOffset st' = currentOffset st + length added.
Proof.
  intros st'.
  assert (A : forall bs s,
    exists added new,
      content (processElements bs s) = content s ++ added
      /\ elements (processElements bs s) = elements s ++ new
      /\ currentOffset (processElements bs s)
         = currentOffset s + length added).
  { induction bs as [| b bs IH]; intros s.
    - exists [], []. simpl. rewrite !app_nil_r. auto.
    - change (processElements (b :: bs) s)
        with (processElements bs (processElement s b)).
      destruct (IH (processElement s b)) as (a2 & n2 & C2 & E2 & O2).
      destruct (processElement_emits s b) as (ls & _ & g & X & _).
      destruct (content_extends _ _ _ _ X) as (a1 & C1 & O1).
      destruct (processElement_elements s b) as (n1 & E1 & _).
      exists (a1 ++ a2), (n1 ++ n2).
      rewrite C2, E2, O2, C1, E1, O1, length_app, !app_assoc.
      repeat split. lia. }
  destruct (A blocks st) as (a1 & n1 & C1 & E1 & O1).
  subst st'. unfold flushAtEnd.
  destruct (collectedFootnotes (processElements blocks st)) eqn:F.
  - now exists a1, n1.
  - rewrite appendFootnotesSection_spec. cbn [content elements currentOffset].
    rewrite C1, E1, O1, <- !app_assoc.
    eexists. eexists. split; [reflexivity |]. split; [reflexivity |].
    rewrite length_app. lia.
Qed.

(** Without page breaks in its body paragraphs a run of blocks gives one
    element per block, in their order: a paragraph element for a paragraph,
    a table element for a table. *)
Theorem one_element_per_block blocks :
  forallb (fun b => negb (blockHasPageBreak b)) blocks = true ->
  forall st,
    map kindOf (elements (processElements blocks st))
    = map kindOf (elements st) ++ map blockKind blocks.
Proof.
  induction blocks as [| b blocks IH]; intros NP st.
  - simpl. now rewrite app_nil_r.
  - split_forallb NP N1 N2. apply negb_true_iff in N1.
    change (processElements (b :: blocks) st)
      with (processElements blocks (processElement st b)).
    rewrite (IH N2).
    destruct (processElement_elements st b) as (new & E & K).
    rewrite N1 in K. now rewrite E, map_app, K, <- app_assoc.
Qed.

Lemma count_page_breaks_app (a b : list Element) :
  length (filter isPageBreakElement (a ++ b))
  = length (filter isPageBreakElement a)
    + length (filter isPageBreakElement b).
Proof. now rewrite filter_app, length_app. Qed.

Lemma count_page_breaks_paragraphs (mid : list Element) :
  map kindOf mid = repeat KParagraph (length mid) ->
  filter isPageBreakElement mid = [].
Proof.
  induction mid as [| e mid IH]; [reflexivity |].
  simpl. intros H. injection H. intros T K.
  destruct e; try discriminate. simpl. now apply IH.
Qed.

(** The page-break markers of the output are as many as the body
    paragraphs that hold a page-break run: one marker per such paragraph,
    however many page breaks it has, and none from tables or footnotes. *)
Theorem one_marker_per_broken_paragraph document :
  length (filter isPageBreakElement (elements (serialize document)))
  = length (filter blockHasPageBreak (docElements document)).
Proof.
  assert (A : forall bs s,
    length (filter isPageBreakElement (elements (processElements bs s)))
    = length (filter isPageBreakElement (elements s))
      + length (filter blockHasPageBreak bs)).
  { induction bs as [| b bs IH]; intros s; [simpl; lia |].
    change (processElements (b :: bs) s)
      with (processElements bs (processElement s b)).
    rewrite IH. cbn [filter].
    destruct (processElement_elements s b) as (new & E & K).
    rewrite E, count_page_breaks_app.
    destruct (blockHasPageBreak b).
    - destruct K as (mid & -> & K).
      rewrite count_page_breaks_app, (count_page_breaks_paragraphs mid K).
      simpl. lia.
    - assert (Z : filter isPageBreakElement new = []).
      { destruct new as [| e [| e' new]]; try discriminate.
        injection K. intros K'. destruct e, b; try discriminate; reflexivity. }
      rewrite Z. simpl. lia. }
  unfold serialize.
  specialize (A (docElements document) initialState). simpl in A.
  set (st := processElements (docElements document) initialState) in *.
  assert (B : length (filter isPageBreakElement (elements (flushAtEnd st)))
              = length (filter isPageBreakElement (elements st))).
  { unfold flushAtEnd. destruct (collectedFootnotes st) eqn:F; [reflexivity |].
    rewrite appendFootnotesSection_spec. simpl.
    rewrite count_page_breaks_app.
    assert (Z : forall o fs, filter isPageBreakElement (footnoteParagraphs o fs) = []).
    { intros o fs. revert o. induction fs as [| g gs IHf]; intros o;
        [reflexivity | simpl; apply IHf]. }
    unfold footnoteSectionElements. simpl. rewrite Z. simpl. lia. }
  unfold ensureContent. destruct (content (flushAtEnd st)).
  - simpl. rewrite count_page_breaks_app. simpl. lia.
  - lia.
Qed.

End GeneratorOutput.

Lemma one_element_per_block_sample :
  map kindOf
      (elements
         (processElements
            [BParagraph (plainParagraph [plainText "a"; BreakRun]);
             BTable mergedTable; BParagraph (plainParagraph [])]
            initialState))
  = [KParagraph; KTable; KParagraph].
Proof.
  exact (one_element_per_block (Num := intNumber)
           [BParagraph (plainParagraph [plainText "a"; BreakRun]);
            BTable mergedTable; BParagraph (plainParagraph [])]
           eq_refl initialState).
Defined.

(** ** Tables and cells *)

Section TableOutput.
Context {Num : JsNumber}.

Lemma cellParagraph_children paragraph st :
  pChildren (fst (cellParagraph paragraph st)) <> [].
Proof.
  unfold cellParagraph.
  destruct (fst (fold_left cellRun (runs paragraph) ([], st))) eqn:E; simpl.
  - discriminate.
  - rewrite E. discriminate.
Qed.

Lemma cellParagraphs_children ps :
  forall cellElements st,
    Forall (fun p => pChildren p <> []) cellElements ->
    Forall (fun p => pChildren p <> [])
           (fst (cellParagraphs ps cellElements st))
    /\ length (fst (cellParagraphs ps cellElements st))
       = length cellElements + length ps.
Proof.
  induction ps as [| p rest IH]; intros cellElements st F.
  - simpl. split; [exact F | lia].
  - rewrite cellParagraphs_cons.
    match goal with
    | |- context [cellParagraphs rest ?acc ?s] =>
        destruct (IH acc s) as [F' L]
    end.
    + apply Forall_app. split; [exact F |].
      constructor; [apply cellParagraph_children | constructor].
    + split; [exact F' |]. rewrite L, length_app. simpl. lia.
Qed.

(** [processTableCell]: a cell is rendered as one paragraph element per
    paragraph, and as one for a cell without paragraphs; each of these
    paragraph elements has a child, the placeholder if nothing else. *)
Theorem cell_paragraphs_are_filled cell st :
  length (fst (processTableCell cell st))
  = Nat.max 1 (length (paragraphs cell))
  /\ Forall (fun p => pChildren p <> []) (fst (processTableCell cell st)).
Proof.
  unfold processTableCell.
  destruct (cellParagraphs_children (paragraphs cell) [] st (Forall_nil _))
    as [F L].
  destruct (cellParagraphs (paragraphs cell) [] st) as [els st1].
  simpl in F, L. destruct els as [| el els]; simpl.
  - destruct (paragraphs cell); [| discriminate].
    split; [reflexivity |]. constructor; [discriminate | constructor].
  - split; [| exact F]. simpl in L. rewrite <- L. lia.
Qed.

Lemma rowCellsLoop_count cs :
  forall cellElements st,
    length (fst (rowCellsLoop cs cellElements st))
    = length cellElements
      + length (filter (fun c => negb (vMergeContinue c)) cs).
Proof.
  induction cs as [| cell rest IH]; intros cellElements st; [simpl; lia |].
  cbn [rowCellsLoop filter].
  destruct (vMergeContinue cell); cbn [negb]; [apply IH |].
  destruct (processTableCell cell st) as [cc st1].
  rewrite IH, length_app. simpl. lia.
Qed.

Lemma tableRowsLoop_rows rs :
  forall i rowElements st,
  exists new,
    fst (tableRowsLoop rs i rowElements st) = rowElements ++ new
    /\ map rowNumber new = seq (i + 1) (length rs)
    /\ map (fun r => length (rowCells r)) new
       = map (fun row => length (renderedCells row)) rs.
Proof.
  induction rs as [| row rest IH]; intros i rowElements st.
  - exists []. simpl. now rewrite app_nil_r.
  - cbn [tableRowsLoop].
    pose proof (rowCellsLoop_count (cells row) [] st) as C.
    destruct (rowCellsLoop (cells row) [] st) as [ce st1].
    destruct (IH (S i)
                 (rowElements ++ [{| rowNumber := i + 1; rowCells := ce |}])
                 st1) as (new & F & R & L).
    exists ({| rowNumber := i + 1; rowCells := ce |} :: new).
    split; [now rewrite F, <- app_assoc |].
    simpl. simpl in C. rewrite R, L, C. split; [| reflexivity].
    replace (S i + 1) with (S (i + 1)) by lia. reflexivity.
Qed.

(** [processTable] pushes one table element. It has a row element for
    every row of the table, numbered from 1 in their order, also for a row
    of continuation cells only, and each row element has one cell element
    per cell that is no continuation. *)
Theorem table_rows_are_kept table st :
  exists rowEls,
    elements (processTable table st)
    = elements st
      ++ [ETable (tableColumnCount table) (tableColumnSpans table)
                 (borderName (border table)) rowEls]
    /\ map rowNumber rowEls = seq 1 (length (rows table))
    /\ map (fun r => length (rowCells r)) rowEls
       = map (fun row => length (renderedCells row)) (rows table).
Proof.
  destruct (processTable_elements table st) as (rowEls & E & F).
  destruct (tableRowsLoop_rows (rows table) 0 [] st) as (new & F' & R & L).
  exists rowEls. split; [exact E |].
  rewrite F in F'. simpl in F'. subst new. now split.
Qed.

(** [columnSpans] lists as many values as [columnCount] says, whether the
    widths are known or the columns share the width evenly. *)
Theorem column_spans_match_count table :
  tableColumnSpans table = join (lit ",") (columnSpanEntries table)
  /\ length (columnSpanEntries table) = tableColumnCount table.
Proof.
  unfold tableColumnSpans, columnSpanEntries, tableColumnCount.
  destruct (length (columnWidths table)) as [| n] eqn:W; simpl.
  - split; [reflexivity | apply repeat_length].
  - split; [reflexivity |]. now rewrite length_map.
Qed.

End TableOutput.

(** ** The room a paragraph takes *)

Section ParagraphRoom.
Context {Num : JsNumber}.

Lemma collectRun_texts run loop :
  runHasText run = true ->
  Forall (fun s => s <> []) (paraContent loop) ->
  Forall (fun s => s <> []) (paraContent (collectRun run loop)).
Proof.
  intros T F.
  destruct run as [t | | data w h | | | id body]; simpl in *;
    try (destruct (truthy data)); simpl;
    try exact F;
    apply Forall_app; (split; [exact F |]);
    constructor; try constructor; try discriminate.
  - destruct (text t); [discriminate | discriminate].
  - destruct id; [discriminate | discriminate].
Qed.

Lemma collectRuns_texts rs :
  forallb runHasText rs = true ->
  forall loop,
    Forall (fun s => s <> []) (paraContent loop) ->
    Forall (fun s => s <> []) (paraContent (collectRuns rs loop)).
Proof.
  induction rs as [| run rest IH]; intros T loop F; [exact F |].
  split_forallb T T1 T2. rewrite collectRuns_cons.
  apply (IH T2). now apply collectRun_texts.
Qed.

Lemma concat_room (parts : list jsstring) :
  parts <> [] -> Forall (fun s => s <> []) parts -> 0 < length (concat parts).
Proof.
  intros NE F. destruct parts as [| p parts]; [contradiction |].
  inversion F as [| ? ? P _]; subst.
  simpl. rewrite length_app. destruct p; [contradiction | simpl; lia].
Qed.

(** A body paragraph without a page break makes the buffer longer when
    every text run of it has text and every footnote reference a label:
    an empty paragraph by its placeholder, any other by what its runs
    write. *)
Theorem paragraph_lengthens_buffer paragraph st :
  hasPageBreak paragraph = false ->
  forallb runHasText (runs paragraph) = true ->
  length (content st) < length (content (processParagraph paragraph st)).
Proof.
  intros NP T. unfold processParagraph.
  rewrite (paragraphRuns_no_page_break paragraph (runs paragraph) NP).
  set (loop := collectRuns (runs paragraph) _).
  assert (F : Forall (fun s => s <> []) (paraContent loop))
    by (apply (collectRuns_texts _ T); constructor).
  destruct (collectRuns_self (runs paragraph)
              {| paraContent := []; paraElements := []; self := st |})
    as (C & _ & _).
  fold loop in C. simpl in C.
  unfold finishParagraph.
  destruct (paraContent loop) as [| s pc] eqn:P.
  - simpl. rewrite P, C, length_app. simpl. lia.
  - cbn [content pushElement appendContent]. rewrite P, C, length_app, join_nil.
    pose proof (concat_room (s :: pc) ltac:(discriminate) F). lia.
Qed.

Lemma cellRun_lengths acc run :
  runHasText run = true ->
  Forall (fun l => 1 <= leafLength l) (fst acc) ->
  Forall (fun l => 1 <= leafLength l) (fst (cellRun acc run)).
Proof.
  intros T F.
  destruct run as [t | | data w h | | | id body]; simpl in *;
    try (destruct (truthy data)); simpl;
    try exact F;
    apply Forall_app; (split; [exact F |]);
    constructor; try constructor; simpl; try lia.
  - destruct (text t); [discriminate | simpl; lia].
  - destruct id; [discriminate | simpl; lia].
Qed.

Lemma cellRuns_lengths rs :
  forallb runHasText rs = true ->
  forall acc,
    Forall (fun l => 1 <= leafLength l) (fst acc) ->
    Forall (fun l => 1 <= leafLength l) (fst (fold_left cellRun rs acc)).
Proof.
  induction rs as [| run rest IH]; intros T acc F; [exact F |].
  split_forallb T T1 T2. simpl fold_left.
  apply (IH T2). now apply cellRun_lengths.
Qed.

Lemma cellParagraph_lengths paragraph st :
  forallb runHasText (runs paragraph) = true ->
  Forall (fun l => 1 <= leafLength l)
         (pChildren (fst (cellParagraph paragraph st))).
Proof.
  intros T. unfold cellParagraph.
  pose proof (cellRuns_lengths (runs paragraph) T ([], st) (Forall_nil _)) as F.
  destruct (fst (fold_left cellRun (runs paragraph) ([], st))) eqn:E; simpl.
  - constructor; [simpl; lia | constructor].
  - rewrite E. exact F.
Qed.

Lemma cellParagraphs_lengths ps :
  forallb (fun p => forallb runHasText (runs p)) ps = true ->
  forall cellElements st,
    Forall (fun l => 1 <= leafLength l) (paragraphLeaves cellElements) ->
    Forall (fun l => 1 <= leafLength l)
           (paragraphLeaves (fst (cellParagraphs ps cellElements st))).
Proof.
  induction ps as [| p rest IH]; intros T cellElements st F; [exact F |].
  split_forallb T T1 T2. rewrite cellParagraphs_cons.
  apply (IH T2). unfold paragraphLeaves in *.
  rewrite flat_map_app. apply Forall_app. split; [exact F |].
  simpl. rewrite app_nil_r. now apply cellParagraph_lengths.
Qed.

Lemma sumLengths_room (ls : list Leaf) :
  Forall (fun l => 1 <= leafLength l) ls -> length ls <= sumLengths ls.
Proof.
  induction 1 as [| l ls H F IH]; simpl; lia.
Qed.

Lemma paragraphLeaves_room (els : list ParagraphEl) :
  Forall (fun p => pChildren p <> []) els ->
  length els <= length (paragraphLeaves els).
Proof.
  induction 1 as [| p els H F IH]; simpl; [lia |].
  rewrite length_app. destruct (pChildren p); [contradiction | simpl; lia].
Qed.

(** A rendered cell in which every text run has text and every footnote
    reference a label takes at least one character of the buffer for each
    of its paragraphs, and one when it has no paragraph. *)
Theorem cell_lengthens_buffer cell st :
  forallb (fun p => forallb runHasText (runs p)) (paragraphs cell) = true ->
  length (content st) + Nat.max 1 (length (paragraphs cell))
  <= length (content (snd (processTableCell cell st))).
Proof.
  intros T.
  destruct (processTableCell_adds cell st) as [_ (g & (added & C & _ & Ti) & _)].
  assert (L : Forall (fun l => 1 <= leafLength l)
                     (paragraphLeaves (fst (processTableCell cell st)))).
  { unfold processTableCell.
    pose proof (cellParagraphs_lengths (paragraphs cell) T [] st
                                       (Forall_nil _)) as F.
    destruct (cellParagraphs (paragraphs cell) [] st) as [els st1].
    destruct els; simpl; [| exact F].
    constructor; [simpl; lia | constructor]. }
  assert (F : Forall (fun p => pChildren p <> [])
                     (fst (processTableCell cell st))).
  { unfold processTableCell.
    destruct (cellParagraphs_children (paragraphs cell) [] st (Forall_nil _))
      as [F' _].
    destruct (cellParagraphs (paragraphs cell) [] st) as [els st1].
    destruct els; simpl; [| exact F'].
    constructor; [discriminate | constructor]. }
  assert (N : length (fst (processTableCell cell st))
              = Nat.max 1 (length (paragraphs cell))).
  { unfold processTableCell.
    destruct (cellParagraphs_children (paragraphs cell) [] st (Forall_nil _))
      as [_ L'].
    destruct (cellParagraphs (paragraphs cell) [] st) as [els st1].
    simpl in L'. destruct els; simpl.
    - destruct (paragraphs cell); [reflexivity | discriminate].
    - simpl in L'. rewrite <- L'. lia. }
  apply tiles_length in Ti. apply sumLengths_room in L.
  apply paragraphLeaves_room in F.
  rewrite C, length_app, Ti, <- N. lia.
Qed.

End ParagraphRoom.

Lemma paragraph_lengthens_buffer_sample :
  length (content initialState)
  < length (content (processParagraph
                       (plainParagraph
                          [plainText "a"; FootnoteRefRun (lit "1") (lit "note")])
                       initialState)).
Proof.
  exact (paragraph_lengthens_buffer (Num := intNumber)
           (plainParagraph
              [plainText "a"; FootnoteRefRun (lit "1") (lit "note")])
           initialState eq_refl eq_refl).
Defined.

Lemma cell_lengthens_buffer_sample :
  length (content initialState) + 2
  <= length (content (snd (processTableCell
                             (plainCell false
                                [plainParagraph
                                   [plainText "x";
                                    FootnoteRefRun (lit "1") (lit "note")];
                                 plainParagraph [BreakRun]])
                             initialState))).
Proof.
  exact (cell_lengthens_buffer (Num := intNumber)
           (plainCell false
              [plainParagraph
                 [plainText "x"; FootnoteRefRun (lit "1") (lit "note")];
               plainParagraph [BreakRun]])
           initialState eq_refl).
Defined.

(** ** Footnotes from reference to flush *)

Section FootnoteConservation.
Context {Num : JsNumber}.

Lemma appendFootnotesSection_pending st :
  collectedFootnotes (appendFootnotesSection st) = collectedFootnotes st.
Proof. now rewrite appendFootnotesSection_spec. Qed.

Lemma paragraph_conserves paragraph rs :
  forall loop,
    concat (map collectedFootnotes (paragraphFlushes paragraph rs loop))
    ++ collectedFootnotes (paragraphRuns paragraph rs loop)
    = collectedFootnotes (self loop) ++ flat_map footnoteOf (beforePageBreak rs).
Proof.
  induction rs as [| run rest IH]; intros loop.
  - cbn [paragraphFlushes paragraphRuns beforePageBreak flat_map map concat app].
    now rewrite finishParagraph_pending, app_nil_r.
  - destruct (isPageBreak run) eqn:PB.
    + destruct run; try discriminate.
      cbn [paragraphFlushes paragraphRuns beforePageBreak flat_map].
      rewrite pageBreak_pending, !app_nil_r.
      pose proof (flushCollected_pending paragraph loop) as F.
      destruct (collectedFootnotes (flushCollected paragraph loop)) eqn:E.
      * now rewrite <- F.
      * simpl. now rewrite app_nil_r, appendFootnotesSection_pending, E, <- F.
    + rewrite paragraphRuns_cons, beforePageBreak_cons by exact PB.
      replace (paragraphFlushes paragraph (run :: rest) loop)
        with (paragraphFlushes paragraph rest (collectRun run loop))
        by (destruct run; try discriminate; reflexivity).
      rewrite IH.
      destruct (collectRun_step run loop PB) as (_ & F & _).
      rewrite F. simpl. now rewrite app_assoc.
Qed.

Lemma block_conserves st b :
  concat (map collectedFootnotes (elementFlushes st b))
  ++ collectedFootnotes (processElement st b)
  = collectedFootnotes st ++ blockFootnotes b.
Proof.
  destruct b as [p | t].
  - apply (paragraph_conserves p (runs p) (startLoop st)).
  - simpl elementFlushes. simpl concat.
    rewrite processElement_pending. reflexivity.
Qed.

Lemma blocks_conserve blocks :
  forall st,
    concat (map collectedFootnotes (elementsFlushes blocks st))
    ++ collectedFootnotes (processElements blocks st)
    = collectedFootnotes st ++ flat_map blockFootnotes blocks.
Proof.
  induction blocks as [| b blocks IH]; intros st.
  - simpl. now rewrite app_nil_r.
  - change (processElements (b :: blocks) st)
      with (processElements blocks (processElement st b)).
    cbn [elementsFlushes flat_map].
    rewrite map_app, concat_app, <- app_assoc, IH, !app_assoc.
    now rewrite block_conserves.
Qed.

(** No footnote is lost and none is written twice: the footnotes of all
    the flushes of a document, read in the order of the flushes, are the
    processed references in the order of the document. *)
Theorem footnotes_are_conserved document :
  concat (map collectedFootnotes (flushPoints document))
  = processedFootnotes document.
Proof.
  unfold flushPoints, processedFootnotes.
  pose proof (blocks_conserve (docElements document) initialState) as C.
  simpl in C. rewrite <- C, map_app, concat_app. f_equal.
  destruct (collectedFootnotes
              (processElements (docElements document) initialState)) eqn:F;
    [reflexivity |].
  simpl. now rewrite app_nil_r, appendFootnotesSection_pending.
Qed.

End FootnoteConservation.

(** ** The older generator and footnote references *)

Section LegacyReferences.
Context {Num : JsNumber}.

Lemma legacy_paragraphRuns_without_refs paragraph rs :
  forall loop,
    Legacy.paragraphRuns (paragraphWithoutRefs paragraph)
                         (filter (fun r => negb (isFootnoteRef r)) rs) loop
    = Legacy.paragraphRuns paragraph rs loop.
Proof.
  induction rs as [| run rest IH]; intros loop; [reflexivity |].
  destruct run; simpl; try apply IH; reflexivity.
Qed.

Lemma legacy_processParagraph_without_refs paragraph st :
  Legacy.processParagraph (paragraphWithoutRefs paragraph) st
  = Legacy.processParagraph paragraph st.
Proof. apply legacy_paragraphRuns_without_refs. Qed.

Lemma legacy_cellRuns_without_refs rs :
  forall acc,
    fold_left Legacy.cellRun (filter (fun r => negb (isFootnoteRef r)) rs) acc
    = fold_left Legacy.cellRun rs acc.
Proof.
  induction rs as [| run rest IH]; intros acc; [reflexivity |].
  destruct run; simpl; apply IH.
Qed.

Lemma legacy_cellParagraph_without_refs paragraph st :
  Legacy.cellParagraph (paragraphWithoutRefs paragraph) st
  = Legacy.cellParagraph paragraph st.
Proof.
  unfold Legacy.cellParagraph. simpl runs.
  now rewrite legacy_cellRuns_without_refs.
Qed.

Lemma legacy_cellParagraphs_without_refs ps :
  forall cellElements st,
    Legacy.cellParagraphs (map paragraphWithoutRefs ps) cellElements st
    = Legacy.cellParagraphs ps cellElements st.
Proof.
  induction ps as [| p rest IH]; intros cellElements st; [reflexivity |].
  cbn [map Legacy.cellParagraphs].
  rewrite legacy_cellParagraph_without_refs.
  destruct (Legacy.cellParagraph p st) as [el st1].
  rewrite <- IH. now destruct rest.
Qed.

Lemma legacy_rowCellsLoop_without_refs cs :
  forall cellElements st,
    Legacy.rowCellsLoop (map cellWithoutRefs cs) cellElements st
    = Legacy.rowCellsLoop cs cellElements st.
Proof.
  induction cs as [| cell rest IH]; intros cellElements st; [reflexivity |].
  cbn [map Legacy.rowCellsLoop]. simpl vMergeContinue.
  destruct (vMergeContinue cell); [apply IH |].
  unfold Legacy.processTableCell. simpl paragraphs.
  rewrite legacy_cellParagraphs_without_refs.
  destruct (Legacy.cellParagraphs (paragraphs cell) [] st) as [els st1].
  destruct els; apply IH.
Qed.

Lemma legacy_tableRowsLoop_without_refs rs :
  forall i rowElements st,
    Legacy.tableRowsLoop
      (map (fun row => {| cells := map cellWithoutRefs (cells row) |}) rs)
      i rowElements st
    = Legacy.tableRowsLoop rs i rowElements st.
Proof.
  induction rs as [| row rest IH]; intros i rowElements st; [reflexivity |].
  cbn [map Legacy.tableRowsLoop]. simpl cells.
  rewrite legacy_rowCellsLoop_without_refs.
  destruct (Legacy.rowCellsLoop (cells row) [] st). apply IH.
Qed.

Lemma tableWithoutRefs_columns table :
  tableColumnCount (tableWithoutRefs table) = tableColumnCount table
  /\ tableColumnSpans (tableWithoutRefs table) = tableColumnSpans table.
Proof.
  assert (C : tableColumnCount (tableWithoutRefs table)
              = tableColumnCount table).
  { unfold tableColumnCount. simpl.
    destruct (length (columnWidths table)); [| reflexivity].
    destruct (rows table); [reflexivity |]. simpl. apply length_map. }
  split; [exact C |].
  unfold tableColumnSpans. rewrite C. reflexivity.
Qed.

Lemma legacy_processElement_without_refs st b :
  Legacy.processElement st (blockWithoutRefs b) = Legacy.processElement st b.
Proof.
  destruct b as [p | t]; simpl.
  - apply legacy_processParagraph_without_refs.
  - unfold Legacy.processTable.
    destruct (tableWithoutRefs_columns t) as [-> ->].
    simpl rows. rewrite legacy_tableRowsLoop_without_refs. reflexivity.
Qed.

Lemma legacy_processElements_without_refs blocks :
  forall st,
    Legacy.processElements (map blockWithoutRefs blocks) st
    = Legacy.processElements blocks st.
Proof.
  induction blocks as [| b blocks IH]; intros st; [reflexivity |].
  unfold Legacy.processElements in *. simpl.
  now rewrite legacy_processElement_without_refs, IH.
Qed.

Lemma withoutFootnoteRefs_clean document :
  noFootnoteRef (withoutFootnoteRefs document) = true.
Proof.
  unfold noFootnoteRef, withoutFootnoteRefs. simpl.
  assert (R : forall rs,
    forallb (fun r => negb (isFootnoteRef r))
            (filter (fun r => negb (isFootnoteRef r)) rs) = true).
  { intros rs. apply forallb_forall. intros r I.
    apply filter_In in I. tauto. }
  assert (P : forall ps,
    forallb paragraphNoFootnoteRef (map paragraphWithoutRefs ps) = true).
  { intros ps. induction ps as [| p ps IH]; [reflexivity |].
    simpl. rewrite IH, andb_true_r. apply R. }
  induction (docElements document) as [| b bs IH]; [reflexivity |].
  simpl. rewrite IH, andb_true_r.
  destruct b as [p | t]; simpl; [apply R |].
  unfold tableNoFootnoteRef. simpl.
  induction (rows t) as [| row rest IHr]; [reflexivity |].
  simpl. rewrite IHr, andb_true_r.
  induction (cells row) as [| c cs IHc]; [reflexivity |].
  simpl. rewrite IHc, andb_true_r. apply P.
Qed.

Lemma legacy_serialize_clean document :
  noFootnoteRef document = true ->
  Legacy.serialize document = forget (serialize document).
Proof.
  intros NF.
  destruct (legacy_processElements (docElements document) NF initialState
                                   eq_refl) as [E F].
  unfold Legacy.serialize, serialize, flushAtEnd.
  change Legacy.initialState with (forget initialState).
  rewrite E, F. unfold Legacy.ensureContent, ensureContent. simpl.
  now destruct (content (processElements (docElements document) initialState)).
Qed.

Lemma legacy_serialize_without_refs document :
  Legacy.serialize document = Legacy.serialize (withoutFootnoteRefs document)
  /\ Legacy.serialize document
     = forget (serialize (withoutFootnoteRefs document)).
Proof.
  assert (A : Legacy.serialize document
              = Legacy.serialize (withoutFootnoteRefs document)).
  { unfold Legacy.serialize. simpl docElements.
    now rewrite legacy_processElements_without_refs. }
  split; [exact A |].
  rewrite A. apply legacy_serialize_clean. apply withoutFootnoteRefs_clean.
Qed.

(** The generator of [js/udf-generator.js] passes over footnote
    references: it serializes a document as it does the document without
    these runs, and its output is then that of the footnote-aware
    generator; neither label nor body of a footnote reaches its buffer. *)
Theorem legacy_ignores_footnote_refs document :
  Legacy.serialize document = Legacy.serialize (withoutFootnoteRefs document)
  /\ Legacy.content (Legacy.serialize document)
     = content (serialize (withoutFootnoteRefs document))
  /\ Legacy.elements (Legacy.serialize document)
     = elements (serialize (withoutFootnoteRefs document))
  /\ Legacy.generate document = generate (withoutFootnoteRefs document).
Proof.
  destruct (legacy_serialize_without_refs document) as [A B].
  split; [exact A |].
  unfold Legacy.generate, generate. rewrite B. now repeat split.
Qed.

(** The elements of the older generator tile its buffer as those of the
    footnote-aware one do: in emission order, without overlap, up to the
    newlines of line breaks and those between the paragraphs of a cell. *)
Theorem legacy_tiles_buffer document :
  let st := Legacy.serialize document in
  Tiles 0 (leaves (Legacy.elements st)) (Legacy.content st)
        (unclaimedNewlines (withoutFootnoteRefs document))
  /\ length (Legacy.content st)
     = sumLengths (leaves (Legacy.elements st))
       + unclaimedNewlines (withoutFootnoteRefs document).
Proof.
  intros st. subst st.
  destruct (legacy_serialize_without_refs document) as [_ ->].
  pose proof (serialize_tiles (withoutFootnoteRefs document)) as T.
  split; [exact T |]. now apply tiles_length with (off := 0).
Qed.

End LegacyReferences.

(** ** The text of the document in the buffer *)

Section BufferText.
Context {Num : JsNumber}.

Lemma collectRun_text run loop :
  paraContent (collectRun run loop) = paraContent loop ++ runText run.
Proof.
  destruct run as [t | | data w h | | | id body]; simpl;
    try (destruct (truthy data)); simpl; now rewrite ?app_nil_r.
Qed.

Lemma collectRuns_text rs :
  forall loop,
    paraContent (collectRuns rs loop) = paraContent loop ++ flat_map runText rs.
Proof.
  induction rs as [| run rest IH]; intros loop.
  - simpl. now rewrite app_nil_r.
  - rewrite collectRuns_cons, IH, collectRun_text. simpl.
    now rewrite app_assoc.
Qed.

(** A body paragraph without a page break appends the texts of its runs,
    in their order and unchanged: the text of a text run, a tab, the
    object-replacement character of a resolved image, a newline, the label
    of a footnote reference; if no run writes, the zero-width space. *)
Theorem paragraph_text_is_kept paragraph st :
  hasPageBreak paragraph = false ->
  content (processParagraph paragraph st) = content st ++ paragraphText paragraph.
Proof.
  intros NP. unfold processParagraph, paragraphText.
  rewrite (paragraphRuns_no_page_break paragraph (runs paragraph) NP).
  set (start := {| paraContent := []; paraElements := []; self := st |}).
  destruct (collectRuns_self (runs paragraph) start) as (C & _ & _).
  pose proof (collectRuns_text (runs paragraph) start) as T.
  simpl in C, T. unfold finishParagraph. rewrite T.
  destruct (flat_map runText (runs paragraph)) as [| piece pieces].
  - simpl. now rewrite T, C.
  - cbn [content pushElement appendContent]. now rewrite T, C, join_nil.
Qed.

Lemma cellRun_text acc run :
  content (snd (cellRun acc run))
  = content (snd acc) ++ concat (cellRunText run)
  /\ length (fst (cellRun acc run))
     = length (fst acc) + length (cellRunText run).
Proof.
  destruct run as [t | | data w h | | | id body]; simpl;
    try (destruct (truthy data)); simpl;
    rewrite ?app_nil_r, ?length_app; simpl; split; reflexivity || lia.
Qed.

Lemma cellRuns_text rs :
  forall acc,
    content (snd (fold_left cellRun rs acc))
    = content (snd acc) ++ concat (flat_map cellRunText rs)
    /\ length (fst (fold_left cellRun rs acc))
       = length (fst acc) + length (flat_map cellRunText rs).
Proof.
  induction rs as [| run rest IH]; intros acc.
  - simpl. rewrite app_nil_r. split; [reflexivity | lia].
  - simpl fold_left. destruct (IH (cellRun acc run)) as [C L].
    destruct (cellRun_text acc run) as [C1 L1].
    rewrite C, L, C1, L1. simpl flat_map.
    rewrite concat_app, length_app, app_assoc. split; [reflexivity | lia].
Qed.

Lemma cellParagraph_text paragraph st :
  content (snd (cellParagraph paragraph st))
  = content st ++ cellParagraphText paragraph.
Proof.
  unfold cellParagraph, cellParagraphText.
  destruct (cellRuns_text (runs paragraph) ([], st)) as [C L].
  simpl in C, L.
  destruct (fst (fold_left cellRun (runs paragraph) ([], st))) as [| l ls];
    destruct (flat_map cellRunText (runs paragraph)) as [| piece pieces];
    try discriminate; simpl; rewrite C; simpl;
    now rewrite ?app_nil_r.
Qed.

Lemma cellParagraphs_text ps :
  forall cellElements st,
    content (snd (cellParagraphs ps cellElements st))
    = content st ++ join [newline] (map cellParagraphText ps).
Proof.
  induction ps as [| p rest IH]; intros cellElements st.
  - simpl. now rewrite app_nil_r.
  - rewrite cellParagraphs_cons, IH.
    pose proof (cellParagraph_text p st) as T.
    destruct rest as [| q rest].
    + cbn [map join]. now rewrite T, app_nil_r.
    + cbn [content advance appendContent]. rewrite T.
      change (map cellParagraphText (p :: q :: rest))
        with (cellParagraphText p :: map cellParagraphText (q :: rest)).
      change (join [newline] (cellParagraphText p
                                :: map cellParagraphText (q :: rest)))
        with (cellParagraphText p ++ [newline]
              ++ join [newline] (map cellParagraphText (q :: rest))).
      now rewrite <- !app_assoc.
Qed.

(** A rendered cell appends the texts of its paragraphs, one newline
    between two of them; the text of a paragraph is that of its runs in
    their order, line breaks and page breaks left out, or a space if no run
    writes; a cell without paragraphs appends a space. *)
Theorem cell_text_is_kept cell st :
  content (snd (processTableCell cell st)) = content st ++ cellText cell.
Proof.
  unfold processTableCell, cellText.
  pose proof (cellParagraphs_text (paragraphs cell) [] st) as T.
  destruct (cellParagraphs_children (paragraphs cell) [] st (Forall_nil _))
    as [_ L].
  destruct (cellParagraphs (paragraphs cell) [] st) as [els st1].
  simpl in T, L.
  destruct (paragraphs cell) as [| p ps]; destruct els as [| el els];
    try discriminate; simpl; rewrite T; simpl; now rewrite ?app_nil_r.
Qed.

Lemma collectRun_unresolved run loop :
  isUnresolvedImage run = true -> collectRun run loop = loop.
Proof.
  destruct run as [t | | data w h | | | id body]; try discriminate.
  simpl. now destruct (truthy data).
Qed.

Lemma paragraphRuns_resolved paragraph rs :
  forall loop,
    paragraphRuns (paragraphResolved paragraph)
                  (filter (fun r => negb (isUnresolvedImage r)) rs) loop
    = paragraphRuns paragraph rs loop.
Proof.
  induction rs as [| run rest IH]; intros loop; [reflexivity |].
  destruct (isUnresolvedImage run) eqn:U.
  - cbn [filter]. rewrite U. cbn [negb].
    rewrite paragraphRuns_cons by (now destruct run).
    rewrite (collectRun_unresolved run loop U). apply IH.
  - cbn [filter]. rewrite U. cbn [negb].
    destruct (isPageBreak run) eqn:PB.
    + destruct run; try discriminate. reflexivity.
    + rewrite !paragraphRuns_cons by exact PB. apply IH.
Qed.

Lemma cellRuns_resolved rs :
  forall acc,
    fold_left cellRun (filter (fun r => negb (isUnresolvedImage r)) rs) acc
    = fold_left cellRun rs acc.
Proof.
  induction rs as [| run rest IH]; intros acc; [reflexivity |].
  destruct run as [t | | data w h | | | id body]; simpl; try apply IH.
  destruct (truthy data) eqn:T; simpl; rewrite ?T; apply IH.
Qed.

Lemma cellParagraphs_resolved ps :
  forall cellElements st,
    cellParagraphs (map paragraphResolved ps) cellElements st
    = cellParagraphs ps cellElements st.
Proof.
  induction ps as [| p rest IH]; intros cellElements st; [reflexivity |].
  cbn [map]. rewrite !cellParagraphs_cons.
  assert (E : cellParagraph (paragraphResolved p) st = cellParagraph p st).
  { unfold cellParagraph. simpl runs. now rewrite cellRuns_resolved. }
  rewrite E, IH. now destruct rest.
Qed.

(** An image run whose data is not resolved is dropped: a body paragraph
    and a cell are serialized as they are without these runs. *)
Theorem unresolved_images_are_dropped :
  (forall paragraph st,
      processParagraph (paragraphResolved paragraph) st
      = processParagraph paragraph st)
  /\ (forall cell st,
         processTableCell (cellResolved cell) st = processTableCell cell st).
Proof.
  split.
  - intros paragraph st. apply paragraphRuns_resolved.
  - intros cell st. unfold processTableCell. simpl paragraphs.
    now rewrite cellParagraphs_resolved.
Qed.

End BufferText.

Lemma paragraph_text_is_kept_sample :
  content (processParagraph
             (plainParagraph [plainText "a"; TabRun; BreakRun; plainText "b"])
             initialState)
  = lit "a" ++ [tabChar] ++ [newline] ++ lit "b".
Proof.
  exact (paragraph_text_is_kept (Num := intNumber)
           (plainParagraph [plainText "a"; TabRun; BreakRun; plainText "b"])
           initialState eq_refl).
Defined.
